(** * chat_analyzer.py: the loader, the flattener and the aggregations

    A shallow embedding of [ChatDataAnalyzer] (src/chat_analyzer.py):
    [load_json_files], [process_data], the data behind the interaction
    frequency, token distribution and common-words charts of
    [create_visualizations], the figures printed by
    [generate_summary_report], and [main] up to its loop over the files.

    Conventions.
    - A parsed JSON value is a [json]; a Python dict is a [gmap string json].
      JSON numbers are integers here.
    - A Python call that may raise returns a [result]; the exception classes
      that occur are the constructors of [exn].
    - pandas and json are libraries, not code of the repository: what
      [json.load] returned for a file is part of the input of the loader,
      and the conversion of one cell by [pd.to_datetime] is a variable of
      the section that defines [process_data], as is what [astype(str)]
      makes of a cell that is not a string.
    - The token columns are modelled as pandas types them when every cell
      is an integer that fits in 64 bits: int64, with sums modulo [2^64].
      The mean of such a column is a float64; a float64 is the rational it
      stands for, and an operation on floats is the exact operation
      followed by rounding to the nearest float64.
    - Strings are byte strings. The text functions are those of Python on
      ASCII text: [\w] and [str.lower] treat a character outside ASCII by
      its Unicode class, which is not modelled, so the properties of the
      words are stated for ASCII prompts. *)

From stdpp Require Import gmap strings list fin_maps sorting pretty.
From Stdlib Require Import ZArith QArith Qabs Qpower Qcanon Ascii.

#[local] Set Warnings "-register-all".
#[local] Open Scope string_scope.
#[local] Open Scope list_scope.
#[local] Open Scope Z_scope.

(** ** Python values and exceptions *)

Inductive json : Type :=
  | JNull
  | JBool (b : bool)
  | JInt (z : Z)
  | JStr (s : string)
  | JList (l : list json)
  | JDict (m : gmap string json).

Inductive exn : Type :=
  | OSError
  | JSONDecodeError
  | KeyError (key : string)
  | TypeError
  | AttributeError
  | ValueError.

Inductive result (A : Type) : Type :=
  | Ok (a : A)
  | Raise (e : exn).
Arguments Ok {A} a.
Arguments Raise {A} e.

#[global] Instance exn_eq_dec : EqDecision exn.
Proof. solve_decision. Defined.

#[global] Instance result_eq_dec {A : Type} `{EqDecision A} : EqDecision (result A).
Proof. solve_decision. Defined.

#[global] Instance result_ret : MRet result := @Ok.
#[global] Instance result_bind : MBind result := λ A B f m,
  match m with Ok a => f a | Raise e => Raise e end.
#[global] Instance result_fmap : FMap result := λ A B f m,
  match m with Ok a => Ok (f a) | Raise e => Raise e end.

(** [for x in xs: body], threading the state the body updates; an exception
    leaves the loop at once. *)
Fixpoint for_each {X S : Type} (body : X → S → result S) (xs : list X) (s : S)
  : result S :=
  match xs with
  | [] => Ok s
  | x :: xs' => s' ← body x s; for_each body xs' s'
  end.

(** [[f(x) for x in xs]] where [f] may raise. *)
Fixpoint traverse {X Y : Type} (f : X → result Y) (xs : list X) : result (list Y) :=
  match xs with
  | [] => Ok []
  | x :: xs' => y ← f x; ys ← traverse f xs'; Ok (y :: ys)
  end.

(** [obj.get(key, default)]: only a dict has the method. *)
Definition py_get (obj : json) (key : string) (dflt : json) : result json :=
  match obj with
  | JDict m => Ok (default dflt (m !! key))
  | _ => Raise AttributeError
  end.

(** [obj[key] = value]: a dict stores the item, a list wants an integer index,
    the other JSON values support no item assignment. *)
Definition py_setitem (obj : json) (key : string) (value : json) : result json :=
  match obj with
  | JDict m => Ok (JDict (<[key := value]> m))
  | _ => Raise TypeError
  end.

(** The values [for x in obj] goes through: the items of a list, the keys of a
    dict, the characters of a string; the other JSON values are not iterable. *)
Definition py_iter (obj : json) : result (list json) :=
  match obj with
  | JList l => Ok l
  | JDict m => Ok (JStr <$> (map_to_list m).*1)
  | JStr s => Ok ((λ c, JStr (String c EmptyString)) <$> String.list_ascii_of_string s)
  | JNull | JBool _ | JInt _ => Raise TypeError
  end.

(** ** The analyzer's state *)

(** The dict built in the innermost loop of [process_data], one per chat turn. *)
Record FlatRecord (T : Type) : Type := mkRow {
  user_id : json;
  project_id : json;
  session_id : json;
  session_datetime : T;
  session_total_tokens : json;
  source_file : json;
  input_prompt : json;
  output_response : json;
  timestamp : T;
  input_tokens : json;
  output_tokens : json;
  total_tokens : json;
}.
Arguments mkRow {T}.
Arguments user_id {T}.
Arguments project_id {T}.
Arguments session_id {T}.
Arguments session_datetime {T}.
Arguments session_total_tokens {T}.
Arguments source_file {T}.
Arguments input_prompt {T}.
Arguments output_response {T}.
Arguments timestamp {T}.
Arguments input_tokens {T}.
Arguments output_tokens {T}.
Arguments total_tokens {T}.

(** A naive date-time, as far as the program looks at one ([.dt.hour]). *)
Record datetime : Type := mkDatetime {
  year : Z; month : Z; day : Z; hour : Z; minute : Z; second : Z;
}.

(** A row as appended to [processed_rows]: both date fields are still JSON. *)
Abbreviation RawRow := (FlatRecord json).
(** A row of [processed_df]: both date fields are typed, [None] is [NaT]. *)
Abbreviation Row := (FlatRecord (option datetime)).
Abbreviation Table := (list Row).

(** What the program prints while loading. *)
Inductive message : Type :=
  | SuccessfullyLoaded (file_name : string)
  | ErrorLoading (file_name : string) (e : exn)
  | TotalFilesLoaded (n : nat).

Record ChatDataAnalyzer : Type := mkAnalyzer {
  all_data : list json;
  stdout : list message;
}.

(** [ChatDataAnalyzer()]: nothing loaded, nothing printed. *)
Definition init : ChatDataAnalyzer := {| all_data := []; stdout := [] |}.

(** ** load_json_files *)

(** [name.endswith(suffix)]. *)
Definition endswith (name suffix : string) : bool :=
  let n := String.length name in
  let k := String.length suffix in
  (k <=? n)%nat && String.eqb (String.substring (n - k) k name) suffix.

(** One directory entry: its name and what [open] followed by [json.load]
    gives for it, the parsed value or the exception. *)
Definition dir_entry : Type := string * result json.

(** The body of the loop over [json_files]: the [try] block tags the parsed
    value and appends it, the [except] branch prints the error and goes on. *)
Definition load_file (entry : dir_entry) (self : ChatDataAnalyzer) : ChatDataAnalyzer :=
  let '(file_name, loaded) := entry in
  match data ← loaded; py_setitem data "source_file" (JStr file_name) with
  | Ok data =>
      {| all_data := all_data self ++ [data];
         stdout := stdout self ++ [SuccessfullyLoaded file_name] |}
  | Raise e =>
      {| all_data := all_data self;
         stdout := stdout self ++ [ErrorLoading file_name e] |}
  end.

Definition load_json_files (directory : list dir_entry) (self : ChatDataAnalyzer)
  : ChatDataAnalyzer :=
  let json_files := List.filter (λ f, endswith f.1 ".json") directory in
  let self := fold_left (λ st f, load_file f st) json_files self in
  {| all_data := all_data self;
     stdout := stdout self ++ [TotalFilesLoaded (length (all_data self))] |}.

(** ** process_data: the flattening loops *)

(** The innermost loop body: one row per chat turn. *)
Definition turn_body (user_id project_id session_id session_datetime
    session_total_tokens source_file : json) (chat : json)
    (processed_rows : list RawRow) : result (list RawRow) :=
  input_prompt ← py_get chat "input_prompt" (JStr "");
  output_response ← py_get chat "output_response" (JStr "");
  timestamp ← py_get chat "timestamp" (JStr "");
  input_tokens ← py_get chat "input_tokens" (JInt 0);
  output_tokens ← py_get chat "output_tokens" (JInt 0);
  total_tokens ← py_get chat "total_tokens" (JInt 0);
  Ok (processed_rows ++
      [mkRow user_id project_id session_id session_datetime session_total_tokens
         source_file input_prompt output_response timestamp input_tokens
         output_tokens total_tokens]).

(** The loop body over [chat_history]. *)
Definition session_body (session_data : json) (chat_session : json)
    (processed_rows : list RawRow) : result (list RawRow) :=
  user_id ← py_get chat_session "user_id" (JStr "Unknown");
  project_id ← py_get chat_session "project_id" (JStr "Unknown");
  session_id ← py_get chat_session "session_id" (JStr "Unknown");
  session_datetime ← py_get chat_session "datetime" (JStr "");
  session_total_tokens ← py_get chat_session "session_total_tokens" (JInt 0);
  source_file ← py_get session_data "source_file" (JStr "Unknown");
  chat_data ← py_get chat_session "chat_data" (JList []);
  chats ← py_iter chat_data;
  for_each (turn_body user_id project_id session_id session_datetime
              session_total_tokens source_file) chats processed_rows.

(** The loop body over [self.all_data]. *)
Definition document_body (session_data : json) (processed_rows : list RawRow)
  : result (list RawRow) :=
  chat_history ← py_get session_data "chat_history" (JList []);
  sessions ← py_iter chat_history;
  for_each (session_body session_data) sessions processed_rows.

(** Lines 47 to 75: [processed_rows] after the three nested loops. *)
Definition flatten (all_data : list json) : result (list RawRow) :=
  for_each document_body all_data [].

(** ** process_data: the data frame and its two date columns *)

Definition column_names : list string :=
  ["user_id"; "project_id"; "session_id"; "session_datetime";
   "session_total_tokens"; "source_file"; "input_prompt"; "output_response";
   "timestamp"; "input_tokens"; "output_tokens"; "total_tokens"].

(** [pd.DataFrame(processed_rows)]: the columns are the keys of the row dicts,
    so a frame built from no row has no column. *)
Record DataFrame : Type := mkFrame {
  columns : list string;
  records : list RawRow;
}.

Definition DataFrame_of (processed_rows : list RawRow) : DataFrame :=
  {| columns := match processed_rows with [] => [] | _ :: _ => column_names end;
     records := processed_rows |}.

(** [df[name]] for one of the two date columns. *)
Definition getitem (df : DataFrame) (name : string) (field : RawRow → json)
  : result (list json) :=
  if bool_decide (name ∈ columns df) then Ok (field <$> records df)
  else Raise (KeyError name).

Section ProcessData.

(** [convert_scalar column j]: what [pd.to_datetime] (with its default
    [errors='raise']) makes of the cell [j] of [column], for a cell that is
    neither null nor the empty string: [None] when pandas rejects the value,
    [Some None] for [NaT], [Some (Some d)] for a date-time. The column is an
    argument because pandas may infer one format from the column and hold
    every cell to it. *)
Variable convert_scalar : list json → json → option (option datetime).

Definition to_datetime_scalar (column : list json) (j : json)
  : result (option datetime) :=
  match j with
  | JNull => Ok None
  | JStr "" => Ok None
  | _ =>
      match convert_scalar column j with
      | Some t => Ok t
      | None => Raise (match j with JStr _ => ValueError | _ => TypeError end)
      end
  end.

(** [pd.to_datetime(column)]: every cell is converted, the first cell that is
    rejected raises; nothing is caught and no cell is skipped. *)
Definition to_datetime (column : list json) : result (list (option datetime)) :=
  traverse (to_datetime_scalar column) column.

(** The row with its two date cells replaced by the converted ones. *)
Definition with_dates (r : RawRow) (ts sd : option datetime) : Row :=
  mkRow (user_id r) (project_id r) (session_id r) sd (session_total_tokens r)
    (source_file r) (input_prompt r) (output_response r) ts (input_tokens r)
    (output_tokens r) (total_tokens r).

Fixpoint assign_dates (rows : list RawRow) (ts sd : list (option datetime)) : Table :=
  match rows, ts, sd with
  | r :: rows', t :: ts', s :: sd' => with_dates r t s :: assign_dates rows' ts' sd'
  | _, _, _ => []
  end.

Definition process_data (all_data : list json) : result Table :=
  processed_rows ← flatten all_data;
  let df := DataFrame_of processed_rows in
  ts ← (col ← getitem df "timestamp" timestamp; to_datetime col);
  sd ← (col ← getitem df "session_datetime" session_datetime; to_datetime col);
  Ok (assign_dates (records df) ts sd).

End ProcessData.

(** An instance of the cell conversion, enough to run the program on
    ISO 8601 timestamps: [YYYY-MM-DDTHH:MM:SS], or with a blank for the [T].
    pandas reads the format off the first cell of the column that is a
    string and not empty, and holds every cell to it: the separator of that
    cell is the one every cell must have. *)
Definition digit (c : Ascii.ascii) : option Z :=
  let n := Z.of_nat (Ascii.nat_of_ascii c) in
  if (48 <=? n) && (n <=? 57) then Some (n - 48) else None.

Fixpoint number (cs : list Ascii.ascii) (acc : Z) : option Z :=
  match cs with
  | [] => Some acc
  | c :: cs' => d ← digit c; number cs' (10 * acc + d)
  end.

Definition leap_year (y : Z) : bool :=
  (y mod 4 =? 0) && (negb (y mod 100 =? 0) || (y mod 400 =? 0)).

Definition days_in_month (y m : Z) : Z :=
  if m =? 2 then (if leap_year y then 29 else 28)
  else if (m =? 4) || (m =? 6) || (m =? 9) || (m =? 11) then 30
  else 31.

Definition iso_datetime (separator : Ascii.ascii) (s : string) : option datetime :=
  match String.list_ascii_of_string s with
  | [y1; y2; y3; y4; d1; m1; m2; d2; a1; a2; sep; h1; h2; c1; n1; n2; c2; s1; s2] =>
      if bool_decide (d1 = "-"%char ∧ d2 = "-"%char ∧ c1 = ":"%char ∧ c2 = ":"%char
                      ∧ sep = separator) then
        y ← number [y1; y2; y3; y4] 0;
        m ← number [m1; m2] 0;
        d ← number [a1; a2] 0;
        h ← number [h1; h2] 0;
        n ← number [n1; n2] 0;
        s ← number [s1; s2] 0;
        if bool_decide (1 ≤ y ∧ 1 ≤ m ≤ 12 ∧ 1 ≤ d ≤ days_in_month y m
                        ∧ h ≤ 23 ∧ n ≤ 59 ∧ s ≤ 59)
        then Some (mkDatetime y m d h n s) else None
      else None
  | _ => None
  end.

(** The separator of the first cell that is a string and not empty, when it
    is a [T] or a blank. *)
Definition column_separator (column : list json) : option Ascii.ascii :=
  first ← head (omap (λ j, match j with
                           | JStr "" => None
                           | JStr s => Some s
                           | _ => None
                           end) column);
  sep ← String.get 10 first;
  if bool_decide (sep = "T"%char ∨ sep = " "%char) then Some sep else None.

Definition iso_convert (column : list json) (j : json)
  : option (option datetime) :=
  match j with
  | JStr s => sep ← column_separator column; Some <$> iso_datetime sep s
  | _ => None
  end.

(** ** The rows of the flattening, read off the documents *)

(** The row for the turn [tm] of the session [sm] of the document [dm]. *)
Definition make_row (dm sm tm : gmap string json) : RawRow :=
  {| user_id := default (JStr "Unknown") (sm !! "user_id");
     project_id := default (JStr "Unknown") (sm !! "project_id");
     session_id := default (JStr "Unknown") (sm !! "session_id");
     session_datetime := default (JStr "") (sm !! "datetime");
     session_total_tokens := default (JInt 0) (sm !! "session_total_tokens");
     source_file := default (JStr "Unknown") (dm !! "source_file");
     input_prompt := default (JStr "") (tm !! "input_prompt");
     output_response := default (JStr "") (tm !! "output_response");
     timestamp := default (JStr "") (tm !! "timestamp");
     input_tokens := default (JInt 0) (tm !! "input_tokens");
     output_tokens := default (JInt 0) (tm !! "output_tokens");
     total_tokens := default (JInt 0) (tm !! "total_tokens") |}.

(** The list stored under [key], empty when the key is absent. *)
Definition entries (m : gmap string json) (key : string) : list json :=
  match m !! key with
  | Some (JList l) => l
  | _ => []
  end.

Definition turn_rows (dm sm : gmap string json) (chat : json) : list RawRow :=
  match chat with
  | JDict tm => [make_row dm sm tm]
  | _ => []
  end.

Definition session_rows (dm : gmap string json) (chat_session : json) : list RawRow :=
  match chat_session with
  | JDict sm => entries sm "chat_data" ≫= turn_rows dm sm
  | _ => []
  end.

Definition document_rows (session_data : json) : list RawRow :=
  match session_data with
  | JDict dm => entries dm "chat_history" ≫= session_rows dm
  | _ => []
  end.

Definition flat_records (all_data : list json) : list RawRow :=
  all_data ≫= document_rows.

(** The number of chat turns of a session and of a document. *)
Definition session_turn_count (chat_session : json) : nat :=
  match chat_session with
  | JDict sm => length (entries sm "chat_data")
  | _ => 0%nat
  end.

Definition document_turn_count (session_data : json) : nat :=
  match session_data with
  | JDict dm => sum_list (session_turn_count <$> entries dm "chat_history")
  | _ => 0%nat
  end.

Definition total_turn_count (all_data : list json) : nat :=
  sum_list (document_turn_count <$> all_data).

(** Well-formed input: a document is an object whose [chat_history], when
    present, is a list of objects whose [chat_data], when present, is a list
    of objects. No field is required. *)
Definition is_dict (j : json) : bool :=
  match j with JDict _ => true | _ => false end.

Definition list_of (ok : json → bool) (field : option json) : bool :=
  match field with
  | None => true
  | Some (JList l) => forallb ok l
  | Some _ => false
  end.

Definition wf_session (chat_session : json) : bool :=
  match chat_session with
  | JDict sm => list_of is_dict (sm !! "chat_data")
  | _ => false
  end.

Definition wf_document (session_data : json) : bool :=
  match session_data with
  | JDict dm => list_of wf_session (dm !! "chat_history")
  | _ => false
  end.

(** [chat] is a turn of the session [sm] of the document [dm] of [all_data]. *)
Definition turn_of (all_data : list json) (dm sm tm : gmap string json) : Prop :=
  JDict dm ∈ all_data ∧ JDict sm ∈ entries dm "chat_history"
  ∧ JDict tm ∈ entries sm "chat_data".

(** ** Cells as group keys and as numbers *)

(** A group key: a number or a string. [True] and [1] are the same key. *)
Abbreviation pykey := (Z + string)%type.

(** The cell as pandas hashes it for [groupby] and [nunique]: a null cell is
    no key (it is dropped), a list or a dict is unhashable. *)
Definition hashable (j : json) : result (option pykey) :=
  match j with
  | JNull => Ok None
  | JBool b => Ok (Some (inl (Z.b2z b)))
  | JInt z => Ok (Some (inl z))
  | JStr s => Ok (Some (inr s))
  | JList _ | JDict _ => Raise TypeError
  end.

(** The cell as a summand of an integer column: a null cell is skipped
    ([skipna]); a string, a list or a dict is no number (pandas
    concatenates strings or fails, by column and version; the sums are
    stated for columns of integers, where this does not occur). *)
Definition numeric (j : json) : result (option Z) :=
  match j with
  | JNull => Ok None
  | JBool b => Ok (Some (Z.b2z b))
  | JInt z => Ok (Some z)
  | JStr _ | JList _ | JDict _ => Raise TypeError
  end.

(** ** The arithmetic of the columns: int64 and float64 *)

(** The value of a 64-bit signed integer after an overflow: numpy adds
    int64 values modulo [2^64] and gives no warning. *)
Definition wrap64 (z : Z) : Z := (z + 2 ^ 63) mod 2 ^ 64 - 2 ^ 63.

Definition add64 (a b : Z) : Z := wrap64 (a + b).

(** [column.sum()] of an int64 column. *)
Definition sum64 (values : list Z) : Z := foldl add64 0 values.

(** The integer nearest to [n / d], for a positive [d]; halfway between
    two integers, the even one. *)
Definition round_half_even (n d : Z) : Z :=
  let q := n / d in
  let r := 2 * (n mod d) in
  if r <? d then q
  else if d <? r then q + 1
  else if Z.even q then q else q + 1.

Definition rint (x : Q) : Z := round_half_even (Qnum x) (Z.pos (Qden x)).

(** The exponent [e] of a positive rational: [2^e <= a < 2^(e+1)]. *)
Definition exponent (a : Q) : Z :=
  let e := Z.log2 (Qnum a) - Z.log2 (Z.pos (Qden a)) in
  if Qle_bool (2 ^ e) a then e else e - 1.

(** The float64 nearest to a rational (IEEE 754 binary64, round to
    nearest, ties to even): 53 significant bits. The range of the
    exponent is not limited here; no quotient of two 64-bit integers
    leaves it. *)
Definition binary64 (q : Q) : Q :=
  if Qeq_bool q 0 then 0%Q
  else
    let ulp := (2 ^ (exponent (Qabs q) - 52))%Q in
    Qred (inject_Z (rint (q / ulp)) * ulp).

Definition float_of_int (z : Z) : Q := binary64 (inject_Z z).

Definition float_add (x y : Q) : Q := binary64 (x + y).

Definition float_div (x y : Q) : Q := binary64 (x / y).

(** The order in which pandas sorts group keys: numbers first, then strings. *)
Definition key_le (a b : pykey) : Prop :=
  match a, b with
  | inl x, inl y => x ≤ y
  | inl _, inr _ => True
  | inr _, inl _ => False
  | inr s, inr t => String.leb s t = true
  end.

#[global] Instance key_le_dec : RelDecision key_le.
Proof. intros [x|s] [y|t]; simpl; apply _. Defined.

(** [column == value] for a string [value]. *)
Definition cell_is_str (value : string) (j : json) : bool :=
  match j with
  | JStr s => String.eqb s value
  | _ => false
  end.

Definition Zsum (l : list Z) : Z := foldr Z.add 0 l.

(** Entries compared by their keys. *)
Definition by_key {K V : Type} (le : K → K → Prop) (a b : K * V) : Prop :=
  le a.1 b.1.

#[global] Instance by_key_dec {K V : Type} (le : K → K → Prop) `{!RelDecision le}
  : RelDecision (by_key (V := V) le).
Proof. intros a b. unfold by_key. apply _. Defined.

(** The entries of a grouped result in the order of their keys. *)
Definition sorted_items {K V : Type} `{Countable K} (le : K → K → Prop)
    `{!RelDecision le} (groups : gmap K V) : list (K * V) :=
  merge_sort (by_key le) (map_to_list groups).

(** ** create_visualizations: the data of charts 2 and 3 *)

(** [df[df['source_file'] == source_file]]. *)
Definition file_rows (processed_df : Table) (source_file_name : string) : Table :=
  filter (λ r : Row, cell_is_str source_file_name (source_file r)) processed_df.

(** One row added to the running sums of its session; the sums are int64. *)
Definition add_tokens (row : Row) (sums : gmap pykey (Z * Z))
  : result (gmap pykey (Z * Z)) :=
  key ← hashable (session_id row);
  match key with
  | None => Ok sums
  | Some k =>
      i ← numeric (input_tokens row);
      o ← numeric (output_tokens row);
      let s := default (0, 0) (sums !! k) in
      Ok (<[k := (add64 s.1 (default 0 i), add64 s.2 (default 0 o))]> sums)
  end.

(** [file_data.groupby('session_id').agg({'input_tokens': 'sum',
    'output_tokens': 'sum'})]: per session id, the two bar heights, in the
    order of the session ids. Rows with a null session id are in no group. *)
Definition session_tokens (processed_df : Table) (source_file_name : string)
  : result (list (pykey * (Z * Z))) :=
  let file_data := file_rows processed_df source_file_name in
  sums ← for_each add_tokens file_data ∅;
  Ok (sorted_items key_le sums).

(** ** Words *)

Definition is_upper (c : ascii) : bool :=
  let n := nat_of_ascii c in (65 <=? n)%nat && (n <=? 90)%nat.

(** [str.lower] on one character of ASCII text. *)
Definition lower_char (c : ascii) : ascii :=
  if is_upper c then ascii_of_nat (nat_of_ascii c + 32) else c.

(** The characters [\w] matches in ASCII text: letters, digits and the
    underscore. *)
Definition is_word_char (c : ascii) : bool :=
  let n := nat_of_ascii c in
  ((48 <=? n) && (n <=? 57) || (65 <=? n) && (n <=? 90)
   || (97 <=? n) && (n <=? 122) || (n =? 95))%nat.

Definition flush (current : list ascii) : list string :=
  match current with
  | [] => []
  | _ :: _ => [String.string_of_list_ascii (rev current)]
  end.

(** [re.findall(r'\b\w+\b', text)]: the maximal runs of word characters, left
    to right; [current] is the run being read, last character first. *)
Fixpoint word_runs (text : list ascii) (current : list ascii) : list string :=
  match text with
  | [] => flush current
  | c :: text' =>
      if is_word_char c then word_runs text' (c :: current)
      else flush current ++ word_runs text' []
  end.

Definition findall_words (text : string) : list string :=
  word_runs (String.list_ascii_of_string text) [].

Definition lower (text : string) : string :=
  String.string_of_list_ascii (lower_char <$> String.list_ascii_of_string text).

(** A [collections.Counter]: the words in the order they were first seen. *)
Fixpoint counter_add (word : string) (counter : list (string * nat))
  : list (string * nat) :=
  match counter with
  | [] => [(word, 1%nat)]
  | (w, n) :: counter' =>
      if String.eqb w word then (w, S n) :: counter'
      else (w, n) :: counter_add word counter'
  end.

Definition Counter (words : list string) : list (string * nat) :=
  foldl (λ counter w, counter_add w counter) [] words.

(** [counter.pop(word, None)]. *)
Definition counter_pop (word : string) (counter : list (string * nat))
  : list (string * nat) :=
  List.filter (λ e, negb (String.eqb e.1 word)) counter.

(** Insertion for a stable sort by decreasing count: [e] stood before every
    entry of [sorted], so it goes before the first entry that is not larger. *)
Fixpoint insert_by_count (e : string * nat) (sorted : list (string * nat))
  : list (string * nat) :=
  match sorted with
  | [] => [e]
  | e' :: sorted' =>
      if (e.2 <? e'.2)%nat then e' :: insert_by_count e sorted'
      else e :: sorted
  end.

(** [counter.most_common()]: by decreasing count, ties in first-seen order. *)
Definition ranking (counter : list (string * nat)) : list (string * nat) :=
  foldr insert_by_count [] counter.

(** [counter.most_common(n)]. *)
Definition most_common (n : nat) (counter : list (string * nat))
  : list (string * nat) :=
  take n (ranking counter).

Definition stop_words : list string :=
  ["the"; "and"; "to"; "of"; "a"; "in"; "is"; "that"; "it"; "on"; "you"; "for";
   "i"; "with"; "as"; "at"; "this"; "but"; "be"; "are"].

Section Text.

(** [str_of_cell column j]: what [column.astype(str)] holds for a cell [j]
    of [column] that is not itself a string (a number, a boolean, null, a
    list or a dict): a string, or [None] when the cell stays a missing
    value, as a null cell does in pandas 3 (older versions give the string
    'None' or 'nan'). It depends on pandas and on the type of the column,
    and is not defined here. *)
Variable str_of_cell : list json → json → option string.

(** One item of [' '.join(column.astype(str))]: a string stays as it is,
    and [join] raises [TypeError] on an item that is no string. *)
Definition py_str (column : list json) (j : json) : result string :=
  match j with
  | JStr s => Ok s
  | _ =>
      match str_of_cell column j with
      | Some s => Ok s
      | None => Raise TypeError
      end
  end.

(** [' '.join(column.astype(str))]. *)
Definition all_text (rows : Table) : result string :=
  let column := input_prompt <$> rows in
  texts ← traverse (py_str column) column;
  Ok (String.concat " " texts).

(** Chart 3, lines 137 to 144: the word counts with the stop words removed. *)
Definition chart_word_freq (file_data : Table) : result (list (string * nat)) :=
  text ← all_text file_data;
  let words := findall_words (lower text) in
  let word_freq := Counter words in
  Ok (foldl (λ freq w, counter_pop w freq) word_freq stop_words).

(** Chart 3, lines 147 and 148: the words and the counts of the bars;
    unpacking an empty [zip] raises. *)
Definition common_words (processed_df : Table) (source_file_name : string)
  : result (list string * list nat) :=
  let file_data := file_rows processed_df source_file_name in
  word_freq ← chart_word_freq file_data;
  let common := most_common 20 word_freq in
  match common with
  | [] => Raise ValueError
  | _ :: _ => Ok (common.*1, common.*2)
  end.

(** The report, lines 230 to 232: the five entries that are printed. *)
Definition top_topics (processed_df : Table) : result (list (string * nat)) :=
  text ← all_text processed_df;
  let words := findall_words (lower text) in
  Ok (most_common 5 (Counter words)).

End Text.

(** ** generate_summary_report: the figures *)

Record OverallStatistics : Type := mkStatistics {
  total_sessions : nat;
  total_interactions : nat;
  total_tokens_used : Z;
  avg_tokens_per_interaction : option Q;
}.

(** [column.nunique()]: the number of distinct keys, null cells apart. *)
Definition nunique (column : list json) : result nat :=
  keys ← traverse hashable column;
  Ok (size (foldl (λ (seen : gset pykey) k, {[k]} ∪ seen) ∅ (omap id keys))).

(** [column.mean()] of an int64 column, [None] for [NaN]: pandas converts
    the values to float64, adds them and divides by their number, all in
    float64. numpy adds fewer than eight values from left to right, as
    here, and a longer column in blocks; the order matters only when a
    partial sum is not exact. *)
Definition mean (values : list Z) : option Q :=
  match values with
  | [] => None
  | _ :: _ =>
      let the_sum :=
        foldl (λ acc v, float_add acc (float_of_int v)) 0%Q values in
      let count := float_of_int (Z.of_nat (length values)) in
      Some (float_div the_sum count)
  end.

(** Lines 205 to 208: the four figures of the "Overall Statistics" block. *)
Definition overall_statistics (processed_df : Table) : result OverallStatistics :=
  total_sessions ← nunique (session_id <$> processed_df);
  let total_interactions := length processed_df in
  cells ← traverse numeric (total_tokens <$> processed_df);
  let values := omap id cells in
  Ok {| total_sessions := total_sessions;
        total_interactions := total_interactions;
        total_tokens_used := sum64 values;
        avg_tokens_per_interaction := mean values |}.

(** One row counted under the hour of its timestamp; [NaT] has no hour and
    is left out of every group. *)
Definition count_hour (sizes : gmap Z nat) (row : Row) : gmap Z nat :=
  match timestamp row with
  | None => sizes
  | Some t => <[hour t := S (default 0%nat (sizes !! hour t))]> sizes
  end.

(** [df.groupby(df['timestamp'].dt.hour).size()]: the hours in increasing
    order, each with its number of rows. *)
Definition hourly_size (processed_df : Table) : list (Z * nat) :=
  sorted_items Z.le (foldl count_hour ∅ processed_df).

(** [series.idxmax()]: the label of the first maximal value. *)
Fixpoint idxmax_from (best : Z * nat) (rest : list (Z * nat)) : Z :=
  match rest with
  | [] => best.1
  | e :: rest' => idxmax_from (if (best.2 <? e.2)%nat then e else best) rest'
  end.

Definition idxmax (series : list (Z * nat)) : result Z :=
  match series with
  | [] => Raise ValueError
  | e :: rest => Ok (idxmax_from e rest)
  end.

(** Line 226: the hour printed as "Busiest Hour"; [idxmax] raises when no
    row has a timestamp. *)
Definition busiest_hour (processed_df : Table) : result Z :=
  idxmax (hourly_size processed_df).

(** ** Quantities the properties are stated with *)

(** The rows of the table whose timestamp falls in hour [h]. *)
Definition rows_at (h : Z) (processed_df : Table) : nat :=
  length (filter (λ r : Row, hour <$> timestamp r = Some h) processed_df).

(** The value a cell adds to a sum: a null cell adds nothing. *)
Definition cell_value (j : json) : Z :=
  match j with
  | JInt z => z
  | JBool b => Z.b2z b
  | _ => 0
  end.

(** The text of a cell that is a string. *)
Definition cell_text (j : json) : option string :=
  match j with
  | JStr s => Some s
  | _ => None
  end.

(** The session a cell names: a string names itself and a number its value
    ([True] is 1 and [False] is 0); null names no session, and a list or a
    dict is no session id. *)
Definition cell_key (j : json) : option pykey :=
  match j with
  | JInt z => Some (inl z)
  | JBool b => Some (inl (Z.b2z b))
  | JStr s => Some (inr s)
  | JNull | JList _ | JDict _ => None
  end.

(** The rows of the table whose source file is [name]. *)
Definition rows_of_file (processed_df : Table) (name : string) : Table :=
  filter (λ r : Row, cell_text (source_file r) = Some name) processed_df.

(** The rows of the file [name] that belong to the session [k]. *)
Definition rows_of_session (processed_df : Table) (name : string) (k : pykey)
  : Table :=
  filter (λ r : Row, cell_key (session_id r) = Some k)
    (rows_of_file processed_df name).

(** An integer that fits in 64 bits: a column of such cells is an int64
    column. *)
Definition is_int64 (j : json) : bool :=
  match j with
  | JInt z => (- 2 ^ 63 <=? z) && (z <? 2 ^ 63)
  | _ => false
  end.

Definition int64_tokens (r : Row) : bool :=
  is_int64 (input_tokens r) && is_int64 (output_tokens r).

(** The session id is a list or a dict. *)
Definition unhashable_id (r : Row) : bool :=
  match session_id r with
  | JList _ | JDict _ => true
  | _ => false
  end.

(** A character of ASCII. *)
Definition is_ascii (c : ascii) : bool := (nat_of_ascii c <? 128)%nat.

(** The prompt of the row is a string of ASCII characters. *)
Definition ascii_prompt (r : Row) : bool :=
  match input_prompt r with
  | JStr s => forallb is_ascii (String.list_ascii_of_string s)
  | _ => false
  end.

(** A row the overall statistics can count: a hashable session id and a
    [total_tokens] cell that is a number or null. *)
Definition countable_row (r : Row) : bool :=
  match session_id r, total_tokens r with
  | (JNull | JBool _ | JInt _ | JStr _), (JNull | JBool _ | JInt _) => true
  | _, _ => false
  end.

(** The sessions of a table, one entry per row that names one. *)
Definition session_keys (processed_df : Table) : list pykey :=
  omap (λ r : Row, cell_key (session_id r)) processed_df.

(** The [total_tokens] cells that are numbers. *)
Definition token_values (processed_df : Table) : list Z :=
  omap (λ r : Row,
    match total_tokens r with
    | JInt z => Some z
    | JBool b => Some (Z.b2z b)
    | _ => None
    end) processed_df.

(** Every field of the row [r] that the session [sm] or the turn [tm] does
    not have holds its sentinel: 'Unknown' for the three ids, the empty
    string for the two dates and the two texts, 0 for the four counts. *)
Definition sentinels (sm tm : gmap string json) (r : RawRow) : Prop :=
  (sm !! "user_id" = None → user_id r = JStr "Unknown")
  ∧ (sm !! "project_id" = None → project_id r = JStr "Unknown")
  ∧ (sm !! "session_id" = None → session_id r = JStr "Unknown")
  ∧ (sm !! "datetime" = None → session_datetime r = JStr "")
  ∧ (tm !! "input_prompt" = None → input_prompt r = JStr "")
  ∧ (tm !! "output_response" = None → output_response r = JStr "")
  ∧ (tm !! "timestamp" = None → timestamp r = JStr "")
  ∧ (sm !! "session_total_tokens" = None → session_total_tokens r = JInt 0)
  ∧ (tm !! "input_tokens" = None → input_tokens r = JInt 0)
  ∧ (tm !! "output_tokens" = None → output_tokens r = JInt 0)
  ∧ (tm !! "total_tokens" = None → total_tokens r = JInt 0).

(** The string [s] is one [pd.to_datetime] rejects as a cell of [column]. *)
Definition rejected (convert : list json → json → option (option datetime))
    (column : list json) (s : string) : Prop :=
  s ≠ "" ∧ convert column (JStr s) = None.

(** What the loader does with one entry: it is loaded when [json.load]
    returned an object, and reported as an error otherwise. *)
Definition loads (entry : dir_entry) : bool :=
  match entry.2 with
  | Ok (JDict _) => true
  | _ => false
  end.

(** The document the loader keeps for an entry: the object [json.load]
    returned, with the file name stored under [source_file]. *)
Definition tagged (entry : dir_entry) : option json :=
  match entry.2 with
  | Ok (JDict m) => Some (JDict (<["source_file" := JStr entry.1]> m))
  | _ => None
  end.

(** [json.load] returned a value for the entry. *)
Definition parses (entry : dir_entry) : bool :=
  match entry.2 with
  | Ok _ => true
  | Raise _ => false
  end.

Definition json_files (directory : list dir_entry) : list dir_entry :=
  List.filter (λ f, endswith f.1 ".json") directory.

(** The line printed for one entry. *)
Definition report_line (entry : dir_entry) : message :=
  match data ← entry.2; py_setitem data "source_file" (JStr entry.1) with
  | Ok _ => SuccessfullyLoaded entry.1
  | Raise e => ErrorLoading entry.1 e
  end.

Definition is_error (m : message) : bool :=
  match m with
  | ErrorLoading _ _ => true
  | _ => false
  end.

(** The number of failures logged. *)
Definition logged_failures (out : list message) : nat :=
  length (List.filter is_error out).

Definition count_where {A : Type} (p : A → bool) (l : list A) : nat :=
  length (List.filter p l).

(** The exact sums of the token columns over some rows. *)
Definition input_total (rows : Table) : Z :=
  Zsum ((λ r : Row, cell_value (input_tokens r)) <$> rows).

Definition output_total (rows : Table) : Z :=
  Zsum ((λ r : Row, cell_value (output_tokens r)) <$> rows).

Definition tokens_total (rows : Table) : Z :=
  Zsum ((λ r : Row, cell_value (total_tokens r)) <$> rows).

(** The sum of the absolute values of the cells of a column. *)
Definition magnitude (field : Row → json) (rows : Table) : Z :=
  Zsum ((λ r : Row, Z.abs (cell_value (field r))) <$> rows).

(** The int64 sums of one session after some more of its rows. *)
Definition advance (s : option (Z * Z)) (rows : Table) : option (Z * Z) :=
  match rows with
  | [] => s
  | _ :: _ =>
      Some (wrap64 ((default (0, 0) s).1 + input_total rows),
            wrap64 ((default (0, 0) s).2 + output_total rows))
  end.

(** ** Sample inputs *)

Definition chat_turn (ts prompt : string) (i o t : Z) : json :=
  JDict (list_to_map
    [("input_prompt", JStr prompt); ("timestamp", JStr ts);
     ("input_tokens", JInt i); ("output_tokens", JInt o);
     ("total_tokens", JInt t)]).

Definition chat_session (sid : string) (turns : list json) : gmap string json :=
  list_to_map [("session_id", JStr sid); ("chat_data", JList turns)].

(** One session with two turns, at 09:00 and 09:30, with tokens (10, 20, 30)
    and (5, 5, 10). *)
Definition scenario_session : gmap string json :=
  chat_session "s1"
    [chat_turn "2024-01-01T09:00:00" "hello" 10 20 30;
     chat_turn "2024-01-01T09:30:00" "bye" 5 5 10].

Definition scenario_file : json :=
  JDict (list_to_map [("chat_history", JList [JDict scenario_session])]).

Definition scenario_directory : list dir_entry :=
  [("chat.json", Ok scenario_file)].

(** A turn whose timestamp no parser of dates accepts as ISO 8601. *)
Definition bad_turn : gmap string json :=
  list_to_map [("timestamp", JStr "yesterday"); ("total_tokens", JInt 3)].

Definition bad_session : gmap string json :=
  list_to_map [("session_id", JStr "s2"); ("chat_data", JList [JDict bad_turn])].

Definition bad_document : gmap string json :=
  list_to_map [("chat_history", JList [JDict bad_session]);
               ("source_file", JStr "bad.json")].

(** A row of the table with the given hour, prompt, session and tokens. *)
Definition sample_row (h : Z) (prompt sid : string) (i o : Z) : Row :=
  {| user_id := JStr "Unknown"; project_id := JStr "Unknown";
     session_id := JStr sid; session_datetime := None;
     session_total_tokens := JInt 0; source_file := JStr "chat.json";
     input_prompt := JStr prompt; output_response := JStr "";
     timestamp := Some (mkDatetime 2024 1 1 h 0 0);
     input_tokens := JInt i; output_tokens := JInt o;
     total_tokens := JInt (i + o) |}.

Definition hour_rows (hours : list Z) : Table :=
  (λ h, sample_row h "" "s1" 0 0) <$> hours.

(** ** More of the program, and the quantities its properties use *)

(** The call returned. *)
Definition succeeds {A : Type} (r : result A) : bool :=
  match r with
  | Ok _ => true
  | Raise _ => false
  end.

(** [for x in field: ...] leaves the loop body alone or runs it on values
    that pass [ok]: the field is absent (the default list is empty), a list
    of values that pass, or an empty string or dict, which iterate over
    nothing; the characters of a string and the keys of a dict are strings,
    and a loop body that calls [.get] on one raises. *)
Definition iterates (ok : json → bool) (field : option json) : bool :=
  match field with
  | None => true
  | Some (JList l) => forallb ok l
  | Some (JStr s) => (String.length s =? 0)%nat
  | Some (JDict m) => (size m =? 0)%nat
  | Some (JNull | JBool _ | JInt _) => false
  end.

Definition flattens_session (chat_session : json) : bool :=
  match chat_session with
  | JDict sm => iterates is_dict (sm !! "chat_data")
  | _ => false
  end.

Definition flattens_document (session_data : json) : bool :=
  match session_data with
  | JDict dm => iterates flattens_session (dm !! "chat_history")
  | _ => false
  end.

(** A date cell that [pd.to_datetime] turns into [NaT] whatever the column:
    the field is missing (the sentinel is the empty string), empty or null. *)
Definition blank (field : option json) : bool :=
  match field with
  | None | Some JNull | Some (JStr "") => true
  | Some _ => false
  end.

Definition undated_turn (chat : json) : bool :=
  match chat with
  | JDict tm => blank (tm !! "timestamp")
  | _ => false
  end.

Definition undated_session (chat_session : json) : bool :=
  match chat_session with
  | JDict sm =>
      blank (sm !! "datetime") && list_of undated_turn (sm !! "chat_data")
  | _ => false
  end.

Definition undated_document (session_data : json) : bool :=
  match session_data with
  | JDict dm => list_of undated_session (dm !! "chat_history")
  | _ => false
  end.

(** A row of the table against the flat record it comes from: the two date
    cells are what [f] and [g] make of the record, the other cells are kept. *)
Definition dated (f g : RawRow → result (option datetime)) (raw : RawRow)
    (row : Row) : Prop :=
  ∃ ts sd, f raw = Ok ts ∧ g raw = Ok sd ∧ row = with_dates raw ts sd.

(** The table of the scenario file, loaded and processed. *)
Definition scenario_table : Table :=
  Eval vm_compute in
    match process_data iso_convert
            (all_data (load_json_files scenario_directory init)) with
    | Ok tbl => tbl
    | Raise _ => []
    end.

Definition scenario_first_row : Row :=
  Eval vm_compute in default (sample_row 0 "" "" 0 0) (head scenario_table).

(** A document with one session of two turns and no date anywhere. *)
Definition undated_file : json :=
  JDict (list_to_map
    [("chat_history", JList [JDict (list_to_map
       [("session_id", JStr "s3");
        ("chat_data", JList [JDict (list_to_map [("total_tokens", JInt 7)]);
                             JDict ∅])])])]).

(** [counter[word]]: the count of a word, 0 when the counter has no entry. *)
Fixpoint counter_get (word : string) (counter : list (string * nat)) : nat :=
  match counter with
  | [] => 0
  | (w, n) :: counter' =>
      if String.eqb w word then n else counter_get word counter'
  end.

(** How often [word] stands in [words]. *)
Definition occurrences (word : string) (words : list string) : nat :=
  length (filter (λ w, w = word) words).

(** The distinct words in the order of their first occurrence. *)
Definition first_seen (words : list string) : list string :=
  foldl (λ seen w, if decide (w ∈ seen) then seen else seen ++ [w]) [] words.

(** The characters of a string. *)
Definition chars (s : string) : list ascii := String.list_ascii_of_string s.

(** ** The words of a text, by the rule the chart and the report share *)

Definition upper_case : string := "ABCDEFGHIJKLMNOPQRSTUVWXYZ".
Definition lower_case : string := "abcdefghijklmnopqrstuvwxyz".
Definition digits : string := "0123456789".

(** A character of a word: a letter, a digit or the underscore. *)
Definition word_char (c : ascii) : bool :=
  bool_decide (c ∈ chars upper_case ++ chars lower_case ++ chars digits
                   ++ chars "_").

(** An upper-case letter becomes the lower-case letter at its place in the
    alphabet; any other character stays. *)
Definition to_lower (c : ascii) : ascii :=
  match list_find (λ u, u = c) (chars upper_case) with
  | Some (i, _) => default c (chars lower_case !! i)
  | None => c
  end.

Definition begins_word (text : list ascii) : bool :=
  match text with
  | c :: _ => word_char c
  | [] => false
  end.

(** The maximal runs of word characters of a text, from left to right: a
    word character joins the run that follows it at once, and begins a run
    of its own otherwise. *)
Fixpoint runs (text : list ascii) : list (list ascii) :=
  match text with
  | [] => []
  | c :: text' =>
      if word_char c then
        match runs text' with
        | w :: ws => if begins_word text' then (c :: w) :: ws else [c] :: w :: ws
        | [] => [[c]]
        end
      else runs text'
  end.

(** The words of a text: its runs of word characters, in lower case. *)
Definition words_of (text : string) : list string :=
  (λ w, String.string_of_list_ascii (to_lower <$> w)) <$> runs (chars text).

(** The words of the prompts of some rows, prompt by prompt. *)
Definition prompt_words (rows : Table) : list string :=
  rows ≫= λ r : Row,
    match input_prompt r with
    | JStr s => words_of s
    | _ => []
    end.

(** Entries in the order of [most_common]: the larger count first. *)
Definition by_count (a b : string * nat) : Prop := (b.2 ≤ a.2)%nat.

(** The entries with the count [n]. *)
Definition with_count (n : nat) (entries : list (string * nat))
  : list (string * nat) :=
  filter (λ e : string * nat, e.2 = n) entries.

(** A tuple of prompts as rows of one file, for examples. *)
Definition prompt_rows (prompts : list string) : Table :=
  (λ p, sample_row 9 p "s1" 1 1) <$> prompts.

(** The sums of the heights of all input bars and of all output bars. *)
Definition bars_total {K : Type} (bars : list (K * (Z * Z))) : Z * Z :=
  (Zsum ((λ b, b.2.1) <$> bars), Zsum ((λ b, b.2.2) <$> bars)).

(** The rows whose session id is not null: the rows [groupby] keeps. *)
Definition has_session_id (r : Row) : bool :=
  match session_id r with
  | JNull => false
  | _ => true
  end.

Definition keyed_rows (rows : Table) : Table :=
  filter (λ r : Row, has_session_id r) rows.

(** ** Distinct values: the loops over sessions and over source files *)

(** The distinct values of a list in the order of first appearance. *)
Definition distinct {A : Type} `{EqDecision A} (l : list A) : list A :=
  foldl (λ seen x, if decide (x ∈ seen) then seen else seen ++ [x]) [] l.

(** [column.unique()]: the distinct cells in the order of first appearance;
    null is one of the values, and a list or a dict cannot be hashed. *)
Definition unique (column : list json) : result (list (option pykey)) :=
  keys ← traverse hashable column;
  Ok (distinct keys).

(** [rows[rows[field] == label]] for a label that [unique] returned: the
    rows with that key; compared with null, every row gives false. *)
Definition rows_equal (field : Row → json) (label : option pykey) (rows : Table)
  : Table :=
  match label with
  | None => []
  | Some k => filter (λ r : Row, hashable (field r) = Ok (Some k)) rows
  end.

(** The key of a cell that is a string. *)
Definition string_key (j : json) : option pykey :=
  match j with
  | JStr name => Some (inr name)
  | _ => None
  end.

(** Chart 1, lines 98 to 102: one line per distinct session id of the file,
    the number of interactions per hour of the day. *)
Definition interaction_frequency (processed_df : Table) (source_file_name : string)
  : result (list (option pykey * list (Z * nat))) :=
  let file_data := file_rows processed_df source_file_name in
  unique (session_id <$> file_data) ≫= λ sessions : list (option pykey),
  Ok ((λ session,
         (session, hourly_size (rows_equal session_id session file_data)))
      <$> sessions).

(** The report, lines 218 to 222: the first three figures printed for one
    source file (the fourth, the mean response length, comes after them and
    is not covered here). *)
Record FileFigures : Type := mkFigures {
  file_sessions : nat;
  file_interactions : nat;
  file_tokens : Z;
}.

Definition file_figures (processed_df : Table) (label : option pykey)
  : result FileFigures :=
  let file_data := rows_equal source_file label processed_df in
  sessions ← nunique (session_id <$> file_data);
  cells ← traverse numeric (total_tokens <$> file_data);
  Ok {| file_sessions := sessions;
        file_interactions := length file_data;
        file_tokens := sum64 (omap id cells) |}.

(** ** main, up to the loop over the source files *)

(** How far [main] gets: it stops at "no JSON files", stops at "no data
    loaded", ends in an exception nothing catches, or reaches the loop that
    draws the charts with the table and the source files to draw. *)
Inductive outcome : Type :=
  | NoJsonFiles
  | NoDataLoaded
  | Uncaught (e : exn)
  | Charts (processed_df : Table) (source_files : list (option pykey)).

Section Main.

Variable convert_scalar : list json → json → option (option datetime).

(** Lines 241 to 268. *)
Definition main (directory : list dir_entry) : outcome :=
  let analyzer := init in
  let json_files := List.filter (λ f, endswith f.1 ".json") directory in
  match json_files with
  | [] => NoJsonFiles
  | _ :: _ =>
      let analyzer := load_json_files directory analyzer in
      match all_data analyzer with
      | [] => NoDataLoaded
      | _ :: _ =>
          match process_data convert_scalar (all_data analyzer) with
          | Raise e => Uncaught e
          | Ok processed_df =>
              match unique (source_file <$> processed_df) with
              | Raise e => Uncaught e
              | Ok source_files => Charts processed_df source_files
              end
          end
      end
  end.

End Main.

(** A directory whose only JSON file is the empty object. *)
Definition empty_object_directory : list dir_entry :=
  [("readme.md", Raise JSONDecodeError); ("empty.json", Ok (JDict ∅))].

(** The row with another source file. *)
Definition with_source (name : string) (r : Row) : Row :=
  mkRow (user_id r) (project_id r) (session_id r) (session_datetime r)
    (session_total_tokens r) (JStr name) (input_prompt r) (output_response r)
    (timestamp r) (input_tokens r) (output_tokens r) (total_tokens r).

(** * Properties *)

(** ** Loops that append *)

Section Loops.
Context {X R : Type}.
Implicit Types (body : X → list R → result (list R)) (g : X → list R).

Lemma for_each_appends body g xs :
  (∀ x acc acc', x ∈ xs → body x acc = Ok acc' → acc' = acc ++ g x) →
  ∀ acc acc', for_each body xs acc = Ok acc' → acc' = acc ++ (xs ≫= g).
Proof.
  induction xs as [|x xs IH]; intros Hbody acc acc' Hrun; simpl in *.
  - inversion Hrun. by rewrite app_nil_r.
  - destruct (body x acc) as [mid|e] eqn:Hx; simpl in Hrun; [|done].
    apply (Hbody x) in Hx as ->; [|left].
    apply IH in Hrun as ->; [by rewrite app_assoc|].
    intros y ? ? Hy. apply Hbody. by right.
Qed.

Lemma for_each_total body g xs :
  (∀ x acc, x ∈ xs → body x acc = Ok (acc ++ g x)) →
  ∀ acc, for_each body xs acc = Ok (acc ++ (xs ≫= g)).
Proof.
  induction xs as [|x xs IH]; intros Hbody acc; simpl.
  - by rewrite app_nil_r.
  - rewrite Hbody by left. simpl. rewrite IH; [by rewrite app_assoc|].
    intros y ? Hy. apply Hbody. by right.
Qed.

Lemma bind_all_nil g xs : (∀ x, x ∈ xs → g x = []) → xs ≫= g = [].
Proof.
  induction xs as [|x xs IH]; intros Hnil; [done|]. simpl.
  rewrite Hnil by left. apply IH. intros y Hy. apply Hnil. by right.
Qed.

End Loops.

Lemma traverse_length {X Y : Type} (f : X → result Y) xs ys :
  traverse f xs = Ok ys → length ys = length xs.
Proof.
  revert ys. induction xs as [|x xs IH]; intros ys Hrun; simpl in *.
  - by inversion Hrun.
  - destruct (f x); simpl in Hrun; [|done].
    destruct (traverse f xs); simpl in Hrun; [|done].
    inversion Hrun. simpl. f_equal. by apply IH.
Qed.

Lemma traverse_raises {X Y : Type} (f : X → result Y) xs x e :
  x ∈ xs → f x = Raise e → ∃ e', traverse f xs = Raise e'.
Proof.
  intros Hin Hx. induction Hin as [x xs|x y xs Hin IH]; simpl.
  - rewrite Hx. by eexists.
  - destruct (f y); simpl; [|by eexists].
    destruct (IH Hx) as [e' ->]. by eexists.
Qed.

Lemma traverse_total {X Y : Type} (f : X → result Y) (g : X → Y) xs :
  (∀ x, x ∈ xs → f x = Ok (g x)) → traverse f xs = Ok (g <$> xs).
Proof.
  induction xs as [|x xs IH]; intros Hf; simpl; [done|].
  rewrite Hf by left. simpl. rewrite IH; [done|].
  intros y Hy. apply Hf. by right.
Qed.

(** ** The flattening loops compute [flat_records] *)

Lemma turn_body_dict dm sm tm acc :
  turn_body (default (JStr "Unknown") (sm !! "user_id"))
    (default (JStr "Unknown") (sm !! "project_id"))
    (default (JStr "Unknown") (sm !! "session_id"))
    (default (JStr "") (sm !! "datetime"))
    (default (JInt 0) (sm !! "session_total_tokens"))
    (default (JStr "Unknown") (dm !! "source_file")) (JDict tm) acc
  = Ok (acc ++ [make_row dm sm tm]).
Proof. reflexivity. Qed.

Lemma turn_body_sound u p s d t f chat acc acc' :
  turn_body u p s d t f chat acc = Ok acc' → is_dict chat = true.
Proof. by destruct chat. Qed.

Lemma not_dict_rows dm sm (xs : list json) :
  Forall (λ x, is_dict x = false) xs → xs ≫= turn_rows dm sm = [].
Proof.
  intros Hall. apply bind_all_nil. intros x Hx.
  rewrite Forall_forall in Hall. specialize (Hall x Hx). by destruct x.
Qed.

Lemma not_dict_sessions dm (xs : list json) :
  Forall (λ x, is_dict x = false) xs → xs ≫= session_rows dm = [].
Proof.
  intros Hall. apply bind_all_nil. intros x Hx.
  rewrite Forall_forall in Hall. specialize (Hall x Hx). by destruct x.
Qed.

Lemma py_iter_entries (m : gmap string json) key dflt xs :
  dflt = JList [] →
  py_iter (default dflt (m !! key)) = Ok xs →
  xs = entries m key ∨ (entries m key = [] ∧ Forall (λ x, is_dict x = false) xs).
Proof.
  intros -> Hiter. unfold entries.
  destruct (m !! key) as [[| | |s|l|d]|]; simpl in Hiter; inversion Hiter; subst.
  - right. split; [done|]. apply Forall_fmap, Forall_true. done.
  - by left.
  - right. split; [done|]. apply Forall_fmap, Forall_true. done.
  - by left.
Qed.

Lemma session_body_sound dm chat_session acc acc' :
  session_body (JDict dm) chat_session acc = Ok acc' →
  acc' = acc ++ session_rows dm chat_session.
Proof.
  destruct chat_session as [| | | | |sm]; try done.
  unfold session_body. simpl.
  destruct (py_iter (default (JList []) (sm !! "chat_data"))) as [chats|]
    eqn:Hiter; simpl; [|done].
  intros Hrun.
  apply (for_each_appends _ (turn_rows dm sm)) in Hrun.
  - apply py_iter_entries in Hiter as [->|[Hnil Hnot]]; [done| |done].
    rewrite Hrun, Hnil. simpl. by rewrite not_dict_rows.
  - intros chat a a' _ Hturn. destruct chat as [| | | | |tm]; try done.
    rewrite turn_body_dict in Hturn. by inversion Hturn.
Qed.

Lemma document_body_sound session_data acc acc' :
  document_body session_data acc = Ok acc' →
  acc' = acc ++ document_rows session_data.
Proof.
  destruct session_data as [| | | | |dm]; try done.
  unfold document_body. simpl.
  destruct (py_iter (default (JList []) (dm !! "chat_history"))) as [sessions|]
    eqn:Hiter; simpl; [|done].
  intros Hrun.
  apply (for_each_appends _ (session_rows dm)) in Hrun.
  - apply py_iter_entries in Hiter as [->|[Hnil Hnot]]; [done| |done].
    rewrite Hrun, Hnil. simpl. by rewrite not_dict_sessions.
  - intros s a a' _. apply session_body_sound.
Qed.

Lemma flatten_sound all_data rows :
  flatten all_data = Ok rows → rows = flat_records all_data.
Proof.
  intros Hrun. apply (for_each_appends _ document_rows) in Hrun; [done|].
  intros d a a' _. apply document_body_sound.
Qed.

Lemma list_of_entries ok (m : gmap string json) key :
  list_of ok (m !! key) = true →
  py_iter (default (JList []) (m !! key)) = Ok (entries m key)
  ∧ Forall (λ x, ok x = true) (entries m key).
Proof.
  unfold list_of, entries.
  destruct (m !! key) as [[| | | |l|]|]; simpl; try done.
  intros Hall. split; [done|]. rewrite forallb_forall in Hall.
  apply Forall_forall. intros x Hx. apply Hall. by apply list_elem_of_In.
Qed.

Lemma session_body_total dm chat_session acc :
  wf_session chat_session = true →
  session_body (JDict dm) chat_session acc
  = Ok (acc ++ session_rows dm chat_session).
Proof.
  destruct chat_session as [| | | | |sm]; try done. simpl.
  intros [Hiter Hall]%list_of_entries.
  unfold session_body. simpl. rewrite Hiter. simpl.
  apply for_each_total. intros chat a Hin.
  rewrite Forall_forall in Hall. specialize (Hall chat Hin).
  destruct chat; try done.
Qed.

Lemma document_body_total session_data acc :
  wf_document session_data = true →
  document_body session_data acc = Ok (acc ++ document_rows session_data).
Proof.
  destruct session_data as [| | | | |dm]; try done. simpl.
  intros [Hiter Hall]%list_of_entries.
  unfold document_body. simpl. rewrite Hiter. simpl.
  apply for_each_total. intros s a Hin.
  rewrite Forall_forall in Hall. by apply session_body_total, Hall.
Qed.

Lemma flatten_total all_data :
  forallb wf_document all_data = true →
  flatten all_data = Ok (flat_records all_data).
Proof.
  intros Hall. rewrite forallb_forall in Hall.
  apply (for_each_total _ document_rows). intros d a Hin.
  apply document_body_total, Hall. by apply list_elem_of_In.
Qed.

Lemma for_each_app {X S : Type} (body : X → S → result S) xs ys s :
  for_each body (xs ++ ys) s = (s' ← for_each body xs s; for_each body ys s').
Proof.
  revert s. induction xs as [|x xs IH]; intros s; simpl; [done|].
  destruct (body x s); simpl; [apply IH|done].
Qed.

Lemma turn_rows_length dm sm (chats : list json) :
  Forall (λ x, is_dict x = true) chats →
  length (chats ≫= turn_rows dm sm) = length chats.
Proof.
  induction 1 as [|chat chats Hchat _ IH]; [done|].
  rewrite bind_cons, length_app, IH. by destruct chat.
Qed.

Lemma session_rows_length dm chat_session :
  wf_session chat_session = true →
  length (session_rows dm chat_session) = session_turn_count chat_session.
Proof.
  destruct chat_session as [| | | | |sm]; try done. simpl.
  intros [_ Hall]%list_of_entries. by apply turn_rows_length.
Qed.

Lemma document_rows_length session_data :
  wf_document session_data = true →
  length (document_rows session_data) = document_turn_count session_data.
Proof.
  destruct session_data as [| | | | |dm]; try done. simpl.
  intros [_ Hall]%list_of_entries.
  induction Hall as [|s sessions Hs _ IH]; [done|].
  rewrite bind_cons, fmap_cons, length_app, IH. simpl. f_equal.
  by apply session_rows_length.
Qed.

Lemma flat_records_length all_data :
  forallb wf_document all_data = true →
  length (flat_records all_data) = total_turn_count all_data.
Proof.
  unfold flat_records, total_turn_count.
  induction all_data as [|d docs IH]; [done|]. cbn [forallb].
  intros [Hd Hdocs]%andb_prop.
  rewrite bind_cons, fmap_cons, length_app, IH by done. simpl. f_equal.
  by apply document_rows_length.
Qed.

Lemma assign_dates_length rows ts sd :
  length ts = length rows → length sd = length rows →
  length (assign_dates rows ts sd) = length rows.
Proof.
  revert ts sd. induction rows as [|r rows IH]; intros [|t ts] [|s sd];
    simpl; try done.
  intros [=] [=]. f_equal. by apply IH.
Qed.

Lemma getitem_timestamp r rows :
  getitem (DataFrame_of (r :: rows)) "timestamp" timestamp
  = Ok (timestamp <$> r :: rows).
Proof. reflexivity. Qed.

Lemma getitem_session_datetime r rows :
  getitem (DataFrame_of (r :: rows)) "session_datetime" session_datetime
  = Ok (session_datetime <$> r :: rows).
Proof. reflexivity. Qed.

(** What a successful [process_data] went through. *)
Lemma process_data_ok convert all_data tbl :
  process_data convert all_data = Ok tbl →
  ∃ r rows ts sd,
    flatten all_data = Ok (r :: rows)
    ∧ to_datetime convert (timestamp <$> r :: rows) = Ok ts
    ∧ to_datetime convert (session_datetime <$> r :: rows) = Ok sd
    ∧ tbl = assign_dates (r :: rows) ts sd.
Proof.
  unfold process_data. destruct (flatten all_data) as [[|r rows]|]; try done.
  cbn [mbind result_bind].
  rewrite getitem_timestamp, getitem_session_datetime. cbn [mbind result_bind].
  destruct (to_datetime convert (timestamp <$> r :: rows)) as [ts|] eqn:Hts;
    [|done].
  destruct (to_datetime convert (session_datetime <$> r :: rows)) as [sd|]
    eqn:Hsd; [|done].
  intros [= <-]. by exists r, rows, ts, sd.
Qed.

Lemma process_data_length convert all_data tbl rows :
  flatten all_data = Ok rows → process_data convert all_data = Ok tbl →
  length tbl = length rows.
Proof.
  intros Hflat (r & rows' & ts & sd & Hflat' & Hts & Hsd & ->)%process_data_ok.
  rewrite Hflat in Hflat'. injection Hflat' as ->.
  apply traverse_length in Hts, Hsd. rewrite length_fmap in Hts, Hsd.
  by apply assign_dates_length.
Qed.

(** C3. For every list of well-formed documents the flattening loops return,
    and they return as many rows as the sessions of the documents have chat
    turns; a table that [process_data] returns has that many rows too. *)
Theorem flatten_row_count convert all_data :
  forallb wf_document all_data = true →
  (∃ rows, flatten all_data = Ok rows
           ∧ length rows = total_turn_count all_data)
  ∧ (∀ tbl, process_data convert all_data = Ok tbl →
            length tbl = total_turn_count all_data).
Proof.
  intros Hwf. pose proof (flatten_total _ Hwf) as Hflat.
  pose proof (flat_records_length _ Hwf) as Hlen. split.
  - by exists (flat_records all_data).
  - intros tbl Htbl. by rewrite (process_data_length _ _ _ _ Hflat Htbl).
Qed.

(** The row count on the scenario file followed by a second document. *)
Lemma flatten_row_count_witness :
  (∃ rows, flatten [scenario_file; JDict bad_document] = Ok rows
           ∧ length rows = total_turn_count [scenario_file; JDict bad_document])
  ∧ (∀ tbl, process_data iso_convert [scenario_file; JDict bad_document] = Ok tbl →
            length tbl = total_turn_count [scenario_file; JDict bad_document]).
Proof. apply (flatten_row_count iso_convert). reflexivity. Defined.

(** C10. A document without [chat_history] leaves [processed_rows] as it is
    and raises nothing, wherever it stands in [all_data]; so does a session
    without [chat_data]. *)
Theorem absent_lists_give_no_rows (dm dm' sm : gmap string json)
    (before after : list json) (processed_rows : list RawRow) :
  dm !! "chat_history" = None → sm !! "chat_data" = None →
  document_body (JDict dm) processed_rows = Ok processed_rows
  ∧ flatten [JDict dm] = Ok []
  ∧ flatten (before ++ JDict dm :: after) = flatten (before ++ after)
  ∧ session_body (JDict dm') (JDict sm) processed_rows = Ok processed_rows.
Proof.
  intros Hhistory Hdata.
  assert (Hdoc : ∀ acc, document_body (JDict dm) acc = Ok acc).
  { intros acc. unfold document_body. simpl. by rewrite Hhistory. }
  repeat split.
  - apply Hdoc.
  - unfold flatten. simpl. by rewrite Hdoc.
  - unfold flatten. rewrite !for_each_app.
    destruct (for_each document_body before []); simpl; [|done].
    by rewrite Hdoc.
  - unfold session_body. simpl. by rewrite Hdata.
Qed.

(** An empty document and an empty session add no row. *)
Lemma absent_lists_give_no_rows_witness :
  document_body (JDict ∅) [] = Ok []
  ∧ flatten [JDict ∅] = Ok []
  ∧ flatten ([scenario_file] ++ JDict ∅ :: [JDict bad_document])
    = flatten ([scenario_file] ++ [JDict bad_document])
  ∧ session_body scenario_file (JDict ∅) [] = Ok [].
Proof.
  apply (absent_lists_give_no_rows ∅ (list_to_map
    [("chat_history", JList [JDict scenario_session])]) ∅); reflexivity.
Defined.

Lemma turn_of_flat_records all_data r :
  r ∈ flat_records all_data →
  ∃ dm sm tm, turn_of all_data dm sm tm ∧ r = make_row dm sm tm.
Proof.
  unfold flat_records. intros (d & Hr & Hd)%list_elem_of_bind.
  destruct d as [| | | | |dm]; try by apply not_elem_of_nil in Hr.
  simpl in Hr. apply list_elem_of_bind in Hr as (s & Hr & Hs).
  destruct s as [| | | | |sm]; try by apply not_elem_of_nil in Hr.
  simpl in Hr. apply list_elem_of_bind in Hr as (c & Hr & Hc).
  destruct c as [| | | | |tm]; try by apply not_elem_of_nil in Hr.
  apply list_elem_of_singleton in Hr. by exists dm, sm, tm.
Qed.

Lemma flat_records_turn_of all_data dm sm tm :
  turn_of all_data dm sm tm → make_row dm sm tm ∈ flat_records all_data.
Proof.
  intros (Hd & Hs & Hc). unfold flat_records.
  apply list_elem_of_bind. exists (JDict dm). split; [|done]. simpl.
  apply list_elem_of_bind. exists (JDict sm). split; [|done]. simpl.
  apply list_elem_of_bind. exists (JDict tm). split; [|done]. simpl. by left.
Qed.

Lemma make_row_sentinels dm sm tm : sentinels sm tm (make_row dm sm tm).
Proof. unfold sentinels. simpl. repeat split; by intros ->. Qed.

(** C7. On well-formed documents the flattening loops never raise, whichever
    fields are missing, and they build one row for every turn: each turn
    [tm] of a session [sm] has its row, every row comes from a turn, and
    in the row each field the session or the turn does not have is
    replaced by its sentinel: 'Unknown' for the three ids, the empty string
    for the two dates and the two texts, 0 for the four token counts. *)
Theorem missing_fields_default all_data :
  forallb wf_document all_data = true →
  ∃ rows, flatten all_data = Ok rows
    ∧ length rows = total_turn_count all_data
    ∧ (∀ dm sm tm, turn_of all_data dm sm tm →
         ∃ r, r ∈ rows ∧ sentinels sm tm r ∧ r = make_row dm sm tm)
    ∧ (∀ r, r ∈ rows →
         ∃ dm sm tm, turn_of all_data dm sm tm
           ∧ sentinels sm tm r ∧ r = make_row dm sm tm).
Proof.
  intros Hwf. exists (flat_records all_data).
  split; [by apply flatten_total|].
  split; [by apply flat_records_length|]. split.
  - intros dm sm tm Hturn. exists (make_row dm sm tm).
    split; [by apply flat_records_turn_of|].
    split; [apply make_row_sentinels|done].
  - intros r (dm & sm & tm & Hturn & ->)%turn_of_flat_records.
    exists dm, sm, tm. split; [done|].
    split; [apply make_row_sentinels|done].
Qed.

(** The sentinels on a document whose only turn has two fields. *)
Lemma missing_fields_default_witness :
  ∃ rows, flatten [JDict bad_document] = Ok rows
    ∧ length rows = total_turn_count [JDict bad_document]
    ∧ (∀ dm sm tm, turn_of [JDict bad_document] dm sm tm →
         ∃ r, r ∈ rows ∧ sentinels sm tm r ∧ r = make_row dm sm tm)
    ∧ (∀ r, r ∈ rows →
         ∃ dm sm tm, turn_of [JDict bad_document] dm sm tm
           ∧ sentinels sm tm r ∧ r = make_row dm sm tm).
Proof. apply (missing_fields_default [JDict bad_document]). reflexivity. Defined.

(** C4. When the documents flatten to no row at all, [process_data] raises
    [KeyError] on the timestamp column, which the empty frame does not have;
    a table is returned only when the flattening gave at least one row. *)
Theorem empty_flattening_raises convert all_data :
  flatten all_data = Ok [] →
  process_data convert all_data = Raise (KeyError "timestamp")
  ∧ ∀ all_data' tbl, process_data convert all_data' = Ok tbl →
      ∃ r rows, flatten all_data' = Ok (r :: rows)
                ∧ length tbl = S (length rows).
Proof.
  intros Hflat. split.
  - unfold process_data. by rewrite Hflat.
  - intros docs tbl Htbl.
    destruct (process_data_ok _ _ _ Htbl) as (r & rows & ts & sd & Hrows & _).
    exists r, rows. split; [done|].
    by rewrite (process_data_length _ _ _ _ Hrows Htbl).
Qed.

(** Two documents without a single turn: no table is built. *)
Lemma empty_flattening_raises_witness :
  process_data iso_convert
    [JDict ∅; JDict (list_to_map [("chat_history", JList [JDict ∅])])]
  = Raise (KeyError "timestamp")
  ∧ ∀ all_data' tbl, process_data iso_convert all_data' = Ok tbl →
      ∃ r rows, flatten all_data' = Ok (r :: rows)
                ∧ length tbl = S (length rows).
Proof. apply empty_flattening_raises. reflexivity. Defined.

Lemma to_datetime_rejects convert (column : list json) s :
  JStr s ∈ column → rejected convert column s →
  ∃ e, to_datetime convert column = Raise e.
Proof.
  intros Hin [Hs Hconv].
  apply (traverse_raises _ _ (JStr s) ValueError); [done|].
  unfold to_datetime_scalar. rewrite Hconv. by destruct s.
Qed.

(** C2. When some turn of the documents has a timestamp string that
    [pd.to_datetime] rejects in the timestamp column, or its session has a
    [datetime] string rejected in that column, [process_data] raises: no
    table is returned and no row is skipped. *)
Theorem malformed_timestamp_fails convert all_data dm sm tm s :
  turn_of all_data dm sm tm →
  tm !! "timestamp" = Some (JStr s)
    ∧ rejected convert (timestamp <$> flat_records all_data) s
  ∨ sm !! "datetime" = Some (JStr s)
    ∧ rejected convert (session_datetime <$> flat_records all_data) s →
  ∃ e, process_data convert all_data = Raise e.
Proof.
  intros Hturn Hfield.
  destruct (process_data convert all_data) as [tbl|e] eqn:Hrun; [|by exists e].
  exfalso.
  apply process_data_ok in Hrun as (r & rows & ts & sd & Hflat & Hts & Hsd & _).
  apply flat_records_turn_of in Hturn.
  rewrite <- (flatten_sound _ _ Hflat) in Hfield, Hturn.
  destruct Hfield as [[Hfield Hrej]|[Hfield Hrej]].
  - destruct (to_datetime_rejects convert (timestamp <$> r :: rows) s)
      as [e He]; [|done|congruence].
    apply list_elem_of_fmap. exists (make_row dm sm tm). split; [|done].
    simpl. by rewrite Hfield.
  - destruct (to_datetime_rejects convert (session_datetime <$> r :: rows) s)
      as [e He]; [|done|congruence].
    apply list_elem_of_fmap. exists (make_row dm sm tm). split; [|done].
    simpl. by rewrite Hfield.
Qed.

(** The timestamp "yesterday" after two good rows stops the build. *)
Lemma malformed_timestamp_fails_witness :
  ∃ e, process_data iso_convert [scenario_file; JDict bad_document] = Raise e.
Proof.
  apply (malformed_timestamp_fails iso_convert _ bad_document bad_session
           bad_turn "yesterday").
  - repeat split; vm_compute; repeat constructor.
  - left. repeat split. discriminate.
Defined.

(** ** The loader *)

Lemma load_file_loaded entry self :
  loads entry = true →
  ∃ data, tagged entry = Some data
    ∧ load_file entry self
      = {| all_data := all_data self ++ [data];
           stdout := stdout self ++ [report_line entry] |}.
Proof.
  destruct entry as [name [[| | | | |m]|e]]; try done. intros _.
  by exists (JDict (<["source_file" := JStr name]> m)).
Qed.

Lemma load_file_failed entry self :
  loads entry = false →
  tagged entry = None
  ∧ load_file entry self
    = {| all_data := all_data self;
         stdout := stdout self ++ [report_line entry] |}.
Proof. by destruct entry as [name [[| | | | |m]|e]]. Qed.

Lemma count_where_cons {A : Type} (p : A → bool) x l :
  count_where p (x :: l) = ((if p x then 1 else 0) + count_where p l)%nat.
Proof. unfold count_where. simpl. by destruct (p x). Qed.

Lemma count_where_split {A : Type} (p : A → bool) l :
  (count_where p l + count_where (λ x, negb (p x)) l)%nat = length l.
Proof.
  induction l as [|x l IH]; [done|]. rewrite !count_where_cons. simpl.
  destruct (p x); simpl; lia.
Qed.

Lemma logged_failures_app out out' :
  logged_failures (out ++ out') = (logged_failures out + logged_failures out')%nat.
Proof. unfold logged_failures. by rewrite List.filter_app, length_app. Qed.

Lemma is_error_report_line entry :
  is_error (report_line entry) = negb (loads entry).
Proof. by destruct entry as [name [[| | | | |m]|e]]. Qed.

Lemma logged_failures_report files :
  logged_failures (report_line <$> files)
  = count_where (λ f, negb (loads f)) files.
Proof.
  induction files as [|f files IH]; [done|].
  rewrite count_where_cons, <- IH, <- is_error_report_line.
  unfold logged_failures. simpl. by destruct (is_error (report_line f)).
Qed.

Lemma tagged_count files :
  length (omap tagged files) = count_where loads files.
Proof.
  induction files as [|f files IH]; [done|].
  rewrite count_where_cons, <- IH. csimpl.
  by destruct f as [name [[| | | | |m]|e]].
Qed.

Lemma load_files_fold files self :
  let self' := fold_left (λ st f, load_file f st) files self in
  all_data self' = all_data self ++ omap tagged files
  ∧ stdout self' = stdout self ++ (report_line <$> files).
Proof.
  revert self. induction files as [|f files IH]; intros self; simpl.
  - by rewrite !app_nil_r.
  - destruct (IH (load_file f self)) as (Hdata & Hout).
    rewrite Hdata, Hout. csimpl.
    destruct (loads f) eqn:Hf.
    + destruct (load_file_loaded f self Hf) as (data & -> & ->). simpl.
      by rewrite <- !app_assoc.
    + destruct (load_file_failed f self Hf) as [-> ->]. simpl.
      by rewrite <- !app_assoc.
Qed.

(** C8, as the code has it. Call a file loadable when [json.load] returns an
    object for it. Loading a directory keeps, in directory order, the tagged
    object of every loadable file whose name ends in [.json], so one document
    per such file, and logs one failure for each of the other [.json] files
    (unreadable, not JSON, or JSON that is not an object); every [.json] file
    gets exactly one line of output, followed by the total, so no file is
    both loaded and failed, none is tried twice and a failure stops
    nothing. *)
Theorem load_counts directory self :
  let files := json_files directory in
  let self' := load_json_files directory self in
  all_data self' = all_data self ++ omap tagged files
  ∧ length (all_data self')
    = (length (all_data self) + count_where loads files)%nat
  ∧ logged_failures (stdout self')
    = (logged_failures (stdout self)
       + count_where (λ f, negb (loads f)) files)%nat
  ∧ stdout self'
    = stdout self ++ (report_line <$> files)
      ++ [TotalFilesLoaded (length (all_data self'))]
  ∧ (count_where loads files + count_where (λ f, negb (loads f)) files)%nat
    = length files.
Proof.
  intros files self'. subst self'. unfold load_json_files.
  fold (json_files directory). fold files. simpl.
  destruct (load_files_fold files self) as (Hdata & Hout).
  rewrite Hout, Hdata. repeat split.
  - by rewrite length_app, tagged_count.
  - rewrite !logged_failures_app, logged_failures_report.
    unfold logged_failures at 2. simpl. lia.
  - by rewrite <- app_assoc.
  - apply count_where_split.
Qed.

(** C8, the counterexample: a file holding the JSON array [[]] parses, yet
    it is not loaded and is logged as a failure ([N = 1] but no document,
    [M = 0] but one failure). *)
Lemma parsed_file_not_loaded :
  let directory := [("a.json", Ok (JList []))] in
  count_where parses (json_files directory) = 1%nat
  ∧ count_where (λ f, negb (parses f)) (json_files directory) = 0%nat
  ∧ length (all_data (load_json_files directory init)) = 0%nat
  ∧ logged_failures (stdout (load_json_files directory init)) = 1%nat
  ∧ stdout (load_json_files directory init)
    = [ErrorLoading "a.json" TypeError; TotalFilesLoaded 0].
Proof. repeat split. Qed.

(** ** Grouped results in key order *)

Lemma elem_of_sorted_items {K V : Type} `{Countable K} (le : K → K → Prop)
    `{!RelDecision le} (groups : gmap K V) k v :
  (k, v) ∈ sorted_items le groups ↔ groups !! k = Some v.
Proof.
  unfold sorted_items. rewrite merge_sort_Permutation.
  apply elem_of_map_to_list.
Qed.

#[local] Instance by_key_le_transitive {V : Type} : Transitive (by_key (V := V) Z.le).
Proof. intros a b c. unfold by_key. lia. Qed.

#[local] Instance by_key_le_total {V : Type} : Total (by_key (V := V) Z.le).
Proof. intros a b. unfold by_key. lia. Qed.

Lemma sorted_items_sorted {V : Type} (groups : gmap Z V) :
  StronglySorted (by_key Z.le) (sorted_items Z.le groups).
Proof. apply StronglySorted_merge_sort; apply _. Qed.

(** ** The busiest hour *)

Lemma rows_at_cons h (r : Row) tbl :
  rows_at h (r :: tbl)
  = ((if decide (hour <$> timestamp r = Some h) then 1 else 0) + rows_at h tbl)%nat.
Proof.
  unfold rows_at. rewrite filter_cons.
  by destruct (decide (hour <$> timestamp r = Some h)).
Qed.

Lemma count_hour_fold tbl sizes h :
  foldl count_hour sizes tbl !! h
  = match rows_at h tbl with
    | O => sizes !! h
    | S n => Some (default 0 (sizes !! h) + S n)%nat
    end.
Proof.
  revert sizes. induction tbl as [|r tbl IH]; intros sizes; [done|].
  simpl. rewrite IH, rows_at_cons. unfold count_hour.
  destruct (timestamp r) as [t|]; simpl.
  - destruct (decide (Some (hour t) = Some h)) as [Hh|Hh]; simplify_eq.
    + rewrite lookup_insert_eq. simpl.
      destruct (rows_at (hour t) tbl); simpl; f_equal; lia.
    + rewrite lookup_insert_ne by congruence. done.
  - destruct (decide (None = Some h)); done.
Qed.

Lemma hourly_size_lookup tbl h n :
  (h, n) ∈ hourly_size tbl ↔ rows_at h tbl = n ∧ (0 < n)%nat.
Proof.
  unfold hourly_size. rewrite elem_of_sorted_items, count_hour_fold.
  rewrite lookup_empty. simpl.
  destruct (rows_at h tbl); split; try done; try lia.
  - intros [= <-]. split; [done|lia].
  - intros [<- _]. f_equal.
Qed.

Lemma idxmax_from_spec best rest :
  ∃ n before after,
    best :: rest = before ++ (idxmax_from best rest, n) :: after
    ∧ (∀ e, e ∈ best :: rest → (e.2 ≤ n)%nat)
    ∧ (∀ e, e ∈ before → (e.2 < n)%nat).
Proof.
  revert best. induction rest as [|e rest IH]; intros best; simpl.
  - exists best.2, [], []. destruct best as [k n]. simpl. repeat split.
    + intros e ->%list_elem_of_singleton. done.
    + intros e Hin. by apply not_elem_of_nil in Hin.
  - destruct (Nat.ltb_spec best.2 e.2) as [Hlt|Hge].
    + destruct (IH e) as (n & before & after & Heq & Hmax & Hfirst).
      exists n, (best :: before), after.
      assert (e.2 ≤ n)%nat by (apply Hmax; left).
      repeat split.
      * by rewrite Heq.
      * intros x [->|Hx]%elem_of_cons; [lia|by apply Hmax].
      * intros x [->|Hx]%elem_of_cons; [lia|by apply Hfirst].
    + destruct (IH best) as (n & before & after & Heq & Hmax & Hfirst).
      assert (best.2 ≤ n)%nat by (apply Hmax; left).
      destruct before as [|b before]; simpl in Heq; injection Heq as Hbest Hrest.
      * exists n, [], (e :: rest). simpl. rewrite <- Hbest. repeat split.
        -- intros x [->|[->|Hx]%elem_of_cons]%elem_of_cons; [lia|lia|].
           apply Hmax. by right.
        -- intros x Hx. by apply not_elem_of_nil in Hx.
      * exists n, (best :: e :: before), after.
        assert (best.2 < n)%nat by (apply Hfirst; rewrite Hbest; left).
        repeat split.
        -- simpl. by rewrite <- Hrest.
        -- intros x [->|[->|Hx]%elem_of_cons]%elem_of_cons; [lia|lia|].
           apply Hmax. by right.
        -- intros x [->|[->|Hx]%elem_of_cons]%elem_of_cons; [done|lia|].
           apply Hfirst. by right.
Qed.

Lemma busiest_hour_sound tbl h :
  busiest_hour tbl = Ok h →
  (0 < rows_at h tbl)%nat
  ∧ ∀ h', (rows_at h' tbl ≤ rows_at h tbl)%nat
          ∧ (rows_at h' tbl = rows_at h tbl → h ≤ h').
Proof.
  unfold busiest_hour, idxmax.
  destruct (hourly_size tbl) as [|best rest] eqn:Hsize; [done|].
  intros [= <-].
  destruct (idxmax_from_spec best rest) as (n & before & after & Heq & Hmax & Hfirst).
  set (h := idxmax_from best rest) in *.
  assert (Hin : ∀ e, e ∈ best :: rest ↔ rows_at e.1 tbl = e.2 ∧ (0 < e.2)%nat).
  { intros [k m]. rewrite <- Hsize. apply hourly_size_lookup. }
  assert (Hh : rows_at h tbl = n ∧ (0 < n)%nat).
  { apply (Hin (h, n)). rewrite Heq, elem_of_app, elem_of_cons. auto. }
  destruct Hh as [Hh Hpos]. split; [lia|]. intros h'.
  destruct (rows_at h' tbl) as [|m] eqn:Hm; [split; lia|].
  assert (Hin' : (h', S m) ∈ best :: rest) by (apply Hin; simpl; split; [done|lia]).
  split; [rewrite Hh; by apply (Hmax (h', S m))|].
  intros Htie. rewrite Hh in Htie. rewrite Heq in Hin'.
  apply elem_of_app in Hin' as [Hin'|[Hsame|Hin']%elem_of_cons].
  - specialize (Hfirst _ Hin'). simpl in Hfirst. lia.
  - by simplify_eq.
  - pose proof (sorted_items_sorted (foldl count_hour ∅ tbl)) as Hsorted.
    fold (hourly_size tbl) in Hsorted. rewrite Hsize, Heq in Hsorted.
    apply StronglySorted_app_1_r, StronglySorted_cons in Hsorted as [Hle _].
    rewrite Forall_forall in Hle. apply (Hle _ Hin').
Qed.

(** C5. The busiest hour of the report is an hour with the highest number of
    rows in the whole table and, among the hours that reach that number, the
    smallest one; it is reported exactly when such an hour exists. Rows at
    the hours 3, 3, 3, 7, 7 give 3, and so does a tie between 3 and 7. *)
Theorem busiest_hour_first_maximum :
  (∀ tbl h,
     busiest_hour tbl = Ok h ↔
     (0 < rows_at h tbl)%nat
     ∧ ∀ h', (rows_at h' tbl ≤ rows_at h tbl)%nat
             ∧ (rows_at h' tbl = rows_at h tbl → h ≤ h'))
  ∧ busiest_hour (hour_rows [3; 3; 3; 7; 7]) = Ok 3
  ∧ busiest_hour (hour_rows [7; 3; 7; 3]) = Ok 3.
Proof.
  split; [|by vm_compute]. intros tbl h. split; [apply busiest_hour_sound|].
  intros [Hpos Hmax].
  destruct (busiest_hour tbl) as [h0|e] eqn:Hrun.
  - apply busiest_hour_sound in Hrun as [Hpos0 Hmax0].
    destruct (Hmax h0) as [Hle Htie], (Hmax0 h) as [Hle0 Htie0].
    f_equal. assert (rows_at h0 tbl = rows_at h tbl) as Heq by lia.
    specialize (Htie Heq). symmetry in Heq. specialize (Htie0 Heq). lia.
  - exfalso. unfold busiest_hour, idxmax in Hrun.
    destruct (hourly_size tbl) as [|best rest] eqn:Hsize; [|done].
    assert ((h, rows_at h tbl) ∈ hourly_size tbl) as Hin
      by (by apply hourly_size_lookup).
    rewrite Hsize in Hin. by apply not_elem_of_nil in Hin.
Qed.

(** Settles [Forall P l] for a list that computes: the list is evaluated,
    then the property is checked row by row. *)
Ltac forall_rows :=
  lazymatch goal with
  | |- Forall ?P ?l =>
      let l' := eval vm_compute in l in
      change (Forall P l'); repeat constructor
  end.

(** ** The arithmetic of int64 columns *)

Lemma wrap64_small z : - 2 ^ 63 ≤ z < 2 ^ 63 → wrap64 z = z.
Proof. intros Hz. unfold wrap64. rewrite Z.mod_small; lia. Qed.

Lemma wrap64_range z : - 2 ^ 63 ≤ wrap64 z < 2 ^ 63.
Proof.
  unfold wrap64. pose proof (Z.mod_pos_bound (z + 2 ^ 63) (2 ^ 64)). lia.
Qed.

Lemma wrap64_add_l a b : wrap64 (wrap64 a + b) = wrap64 (a + b).
Proof.
  unfold wrap64. f_equal.
  replace ((a + 2 ^ 63) mod 2 ^ 64 - 2 ^ 63 + b + 2 ^ 63)
    with ((a + 2 ^ 63) mod 2 ^ 64 + b) by lia.
  rewrite Z.add_mod_idemp_l by lia. f_equal. lia.
Qed.

Lemma wrap64_add_r a b : wrap64 (a + wrap64 b) = wrap64 (a + b).
Proof. by rewrite Z.add_comm, wrap64_add_l, Z.add_comm. Qed.

Lemma Zsum_step x l : Zsum (x :: l) = x + Zsum l.
Proof. done. Qed.

Lemma Zsum_app l1 l2 : Zsum (l1 ++ l2) = Zsum l1 + Zsum l2.
Proof. induction l1 as [|x l1 IH]; simpl; lia. Qed.

Lemma foldl_add64 values acc :
  wrap64 (foldl add64 acc values) = wrap64 (acc + Zsum values).
Proof.
  revert acc. induction values as [|v values IH]; intros acc; simpl.
  - by rewrite Z.add_0_r.
  - rewrite IH. unfold add64. rewrite wrap64_add_l. f_equal. lia.
Qed.

Lemma foldl_add64_range values acc :
  - 2 ^ 63 ≤ acc < 2 ^ 63 → - 2 ^ 63 ≤ foldl add64 acc values < 2 ^ 63.
Proof.
  revert acc. induction values as [|v values IH]; intros acc Hacc; [done|].
  apply IH, wrap64_range.
Qed.

(** The int64 sum is the exact sum modulo [2^64]. *)
Lemma sum64_spec values : sum64 values = wrap64 (Zsum values).
Proof.
  unfold sum64. change (Zsum values) with (0 + Zsum values).
  rewrite <- foldl_add64. symmetry.
  apply wrap64_small, foldl_add64_range. lia.
Qed.

Lemma Zsum_abs_le (l : list Z) : Z.abs (Zsum l) ≤ Zsum (Z.abs <$> l).
Proof. induction l as [|x l IH]; [done|]. rewrite fmap_cons, !Zsum_step. lia. Qed.

Lemma Zsum_abs_nonneg (l : list Z) : 0 ≤ Zsum (Z.abs <$> l).
Proof. induction l as [|x l IH]; [done|]. rewrite fmap_cons, Zsum_step. lia. Qed.

Lemma Zsum_abs_nonneg_fmap {A : Type} (f : A → Z) (l : list A) :
  0 ≤ Zsum ((λ x, Z.abs (f x)) <$> l).
Proof. induction l as [|x l IH]; [done|]. rewrite fmap_cons, Zsum_step. lia. Qed.

(** ** Rounding to float64 *)

Lemma round_half_even_near n d :
  0 < d → Z.abs (2 * (round_half_even n d * d - n)) ≤ d.
Proof.
  intros Hd. unfold round_half_even.
  pose proof (Z.div_mod n d ltac:(lia)) as Hn.
  pose proof (Z.mod_pos_bound n d Hd) as Hr.
  generalize dependent (n / d). generalize dependent (n mod d). intros r Hr q Hn.
  subst n.
  destruct (Z.ltb_spec (2 * r) d); [nia|].
  destruct (Z.ltb_spec d (2 * r)); [nia|].
  destruct (Z.even q); nia.
Qed.

Lemma round_half_even_exact k d : 0 < d → round_half_even (k * d) d = k.
Proof.
  intros Hd. unfold round_half_even.
  rewrite Z.div_mul, Z.mod_mul by lia.
  by destruct (Z.ltb_spec (2 * 0) d); [|lia].
Qed.

Lemma rint_near x : (Qabs (inject_Z (rint x) - x) <= 1 # 2)%Q.
Proof.
  destruct x as [n d]. unfold rint. cbn [Qnum Qden].
  pose proof (round_half_even_near n (Z.pos d) ltac:(lia)) as Hnear.
  set (m := round_half_even n (Z.pos d)) in *.
  apply Qabs_Qle_condition. unfold Qle, Qminus, Qplus, Qopp, inject_Z. simpl.
  rewrite ?Pos2Z.inj_mul. nia.
Qed.

Lemma rint_exact x k : (x == inject_Z k)%Q → rint x = k.
Proof.
  destruct x as [n d]. unfold Qeq, inject_Z, rint. simpl.
  rewrite Z.mul_1_r. intros ->. apply round_half_even_exact. lia.
Qed.

Lemma Qpower_2_pos e : (0 < 2 ^ e)%Q.
Proof. by apply Qpower_0_lt. Qed.

Lemma Qpower_2_Z k : 0 ≤ k → (2 ^ k == inject_Z (2 ^ k))%Q.
Proof. intros Hk. symmetry. by apply (Zpower_Qpower 2). Qed.

Lemma Qabs_pos_neq q : ¬ (q == 0)%Q → (0 < Qabs q)%Q.
Proof.
  intros Hq. destruct (Qlt_le_dec 0 (Qabs q)) as [|Hle]; [done|].
  destruct Hq. apply Qabs_Qle_condition in Hle as [? ?].
  by apply Qle_antisym.
Qed.

(** The exponent is that of the leading bit. *)
Lemma exponent_le a : (0 < a)%Q → (2 ^ exponent a <= a)%Q.
Proof.
  intros Ha. unfold exponent.
  destruct (Qle_bool _ a) eqn:Hle; [by apply Qle_bool_iff|]. clear Hle.
  destruct a as [n d]. cbn [Qnum Qden].
  assert (0 < n) as Hn by (unfold Qlt in Ha; simpl in Ha; lia).
  pose proof (Z.log2_spec n Hn) as [Hlo _].
  pose proof (Z.log2_spec (Z.pos d) ltac:(lia)) as [_ Hhi].
  pose proof (Z.log2_nonneg n) as Hln.
  pose proof (Z.log2_nonneg (Z.pos d)) as Hld.
  replace (Z.log2 n - Z.log2 (Z.pos d) - 1)
    with (Z.log2 n - Z.succ (Z.log2 (Z.pos d))) by lia.
  rewrite Qpower_minus by done.
  rewrite !Qpower_2_Z by lia.
  rewrite (Qmake_Qdiv n d).
  apply Qle_shift_div_r.
  { rewrite <- (Zlt_Qlt 0). lia. }
  setoid_replace (inject_Z n / inject_Z (Z.pos d)
                  * inject_Z (2 ^ Z.succ (Z.log2 (Z.pos d))))%Q
    with (inject_Z n * inject_Z (2 ^ Z.succ (Z.log2 (Z.pos d)))
          / inject_Z (Z.pos d))%Q using relation Qeq by (field; discriminate).
  apply Qle_shift_div_l.
  { rewrite <- (Zlt_Qlt 0). lia. }
  rewrite <- !inject_Z_mult, <- Zle_Qle. nia.
Qed.

Lemma exponent_lt a : (0 < a)%Q → (a < 2 ^ (exponent a + 1))%Q.
Proof.
  intros Ha. unfold exponent.
  destruct (Qle_bool _ a) eqn:Hle.
  2:{ replace (Z.log2 (Qnum a) - Z.log2 (Z.pos (Qden a)) - 1 + 1)
        with (Z.log2 (Qnum a) - Z.log2 (Z.pos (Qden a))) by lia.
      apply Qnot_le_lt. intros Hle'%Qle_bool_iff. congruence. }
  clear Hle. destruct a as [n d]. cbn [Qnum Qden].
  assert (0 < n) as Hn by (unfold Qlt in Ha; simpl in Ha; lia).
  pose proof (Z.log2_spec n Hn) as [_ Hhi].
  pose proof (Z.log2_spec (Z.pos d) ltac:(lia)) as [Hlo _].
  pose proof (Z.log2_nonneg n) as Hln.
  pose proof (Z.log2_nonneg (Z.pos d)) as Hld.
  replace (Z.log2 n - Z.log2 (Z.pos d) + 1)
    with (Z.succ (Z.log2 n) - Z.log2 (Z.pos d)) by lia.
  rewrite Qpower_minus by done.
  rewrite !Qpower_2_Z by lia.
  rewrite (Qmake_Qdiv n d).
  apply Qlt_shift_div_l.
  { rewrite <- (Zlt_Qlt 0). apply Z.pow_pos_nonneg; lia. }
  setoid_replace (inject_Z n / inject_Z (Z.pos d)
                  * inject_Z (2 ^ Z.log2 (Z.pos d)))%Q
    with (inject_Z n * inject_Z (2 ^ Z.log2 (Z.pos d))
          / inject_Z (Z.pos d))%Q using relation Qeq by (field; discriminate).
  apply Qlt_shift_div_r.
  { rewrite <- (Zlt_Qlt 0). lia. }
  rewrite <- !inject_Z_mult, <- Zlt_Qlt.
  assert (0 < 2 ^ Z.log2 (Z.pos d)) by (apply Z.pow_pos_nonneg; lia). nia.
Qed.

(** A third and a tenth, as the floats that print as 0.3333333333333333
    and 0.1. *)
Example binary64_third :
  binary64 (1 # 3) = (6004799503160661 # 18014398509481984)%Q.
Proof. by vm_compute. Qed.

Example binary64_tenth :
  binary64 (1 # 10) = (3602879701896397 # 36028797018963968)%Q.
Proof. by vm_compute. Qed.

(** Rounding moves a number by at most the fraction [2^-53] of itself. *)
Lemma binary64_near q :
  (Qabs (binary64 q - q) <= Qabs q * (1 # 2 ^ 53))%Q.
Proof.
  unfold binary64. destruct (Qeq_bool q 0) eqn:Hq.
  { apply Qeq_bool_iff in Hq. rewrite Hq. discriminate. }
  apply Qeq_bool_neq, Qabs_pos_neq in Hq.
  pose proof (exponent_le _ Hq) as He.
  set (e := exponent (Qabs q)) in *.
  pose proof (Qpower_2_pos (e - 52)) as Hulp.
  set (ulp := (2 ^ (e - 52))%Q) in *.
  pose proof (rint_near (q / ulp)) as Hnear.
  set (m := rint (q / ulp)) in *.
  rewrite Qred_correct.
  setoid_replace (inject_Z m * ulp - q)%Q
    with ((inject_Z m - q / ulp) * ulp)%Q using relation Qeq
    by (field; intros H0; rewrite H0 in Hulp; by apply Qlt_irrefl in Hulp).
  rewrite Qabs_Qmult, (Qabs_pos ulp) by by apply Qlt_le_weak.
  apply Qle_trans with ((1 # 2) * ulp)%Q.
  { by apply Qmult_le_compat_r; [|apply Qlt_le_weak]. }
  assert (ulp == 2 ^ e * (1 # 2 ^ 52))%Q as ->.
  { unfold ulp. rewrite Qpower_minus by done. reflexivity. }
  assert ((1 # 2 ^ 53) == (1 # 2) * (1 # 2 ^ 52))%Q as -> by reflexivity.
  setoid_replace ((1 # 2) * (2 ^ e * (1 # 2 ^ 52)))%Q
    with (2 ^ e * ((1 # 2) * (1 # 2 ^ 52)))%Q using relation Qeq by ring.
  by apply Qmult_le_compat_r.
Qed.

(** An integer below [2^53] is a float64. *)
Lemma binary64_exact q z :
  (q == inject_Z z)%Q → Z.abs z < 2 ^ 53 → binary64 q = inject_Z z.
Proof.
  intros Hqz Hz. unfold binary64. destruct (Qeq_bool q 0) eqn:Hq.
  { apply Qeq_bool_iff in Hq. rewrite Hqz in Hq.
    unfold Qeq in Hq. simpl in Hq. by replace z with 0 by lia. }
  apply Qeq_bool_neq, Qabs_pos_neq in Hq.
  pose proof (exponent_le _ Hq) as He.
  set (e := exponent (Qabs q)) in *.
  assert (e < 53) as He53.
  { apply (Qpower_lt_compat_l_inv 2); [|done].
    eapply Qle_lt_trans; [exact He|]. rewrite Hqz.
    assert (Qabs (inject_Z z) == inject_Z (Z.abs z))%Q as -> by done.
    rewrite Qpower_2_Z by lia. by rewrite <- Zlt_Qlt. }
  assert (2 ^ (e - 52) == / inject_Z (2 ^ (52 - e)))%Q as Hulp.
  { rewrite <- Qpower_2_Z by lia. rewrite <- Qpower_opp.
    by replace (- (52 - e)) with (e - 52) by lia. }
  assert (0 < 2 ^ (52 - e)) as Hpow by (apply Z.pow_pos_nonneg; lia).
  rewrite (rint_exact _ (z * 2 ^ (52 - e))).
  2:{ rewrite Hulp, Hqz, inject_Z_mult. field.
      intros H0. unfold Qeq in H0. simpl in H0. lia. }
  rewrite <- (Qred_identity (inject_Z z)) by (simpl; apply Z.gcd_1_r).
  apply Qred_complete. rewrite Hulp, inject_Z_mult. field.
  intros H0. unfold Qeq in H0. simpl in H0. lia.
Qed.

Lemma float_of_int_exact z : Z.abs z < 2 ^ 53 → float_of_int z = inject_Z z.
Proof. intros Hz. by apply binary64_exact. Qed.

(** The float64 sum of integers is exact while their absolute values add up
    to less than [2^53]. *)
Lemma float_sum_exact values acc :
  Z.abs acc + Zsum (Z.abs <$> values) < 2 ^ 53 →
  foldl (λ x v, float_add x (float_of_int v)) (inject_Z acc) values
  = inject_Z (acc + Zsum values).
Proof.
  revert acc. induction values as [|v values IH]; intros acc Hsum.
  - simpl. by rewrite Z.add_0_r.
  - rewrite fmap_cons, Zsum_step in Hsum.
    pose proof (Zsum_abs_nonneg values) as Hrest.
    cbn [foldl]. rewrite float_of_int_exact by lia.
    unfold float_add. rewrite (binary64_exact _ (acc + v)).
    + rewrite IH by lia. f_equal. rewrite Zsum_step. lia.
    + by rewrite inject_Z_plus.
    + lia.
Qed.

(** ** The rows of a file and of a session, as the code selects them *)

Lemma file_rows_spec tbl name : file_rows tbl name = rows_of_file tbl name.
Proof.
  unfold file_rows, rows_of_file. apply list_filter_iff. intros r.
  destruct (source_file r) as [| | |s| |]; simpl; try done.
  destruct (String.eqb_spec s name) as [->|Hne]; [done|].
  split; [done|]. by intros [= ->].
Qed.

Lemma hashable_cell_key j k : hashable j = Ok (Some k) ↔ cell_key j = Some k.
Proof. destruct j; simpl; split; by intros [= <-]. Qed.

Lemma rows_of_session_spec tbl name k :
  filter (λ r : Row, hashable (session_id r) = Ok (Some k)) (file_rows tbl name)
  = rows_of_session tbl name k.
Proof.
  rewrite file_rows_spec. unfold rows_of_session.
  apply list_filter_iff. intros r. apply hashable_cell_key.
Qed.

(** ** Rows grouped by a key *)

Section Partition.
Context (field : Row → json) (w : Row → Z).

Lemma rows_equal_cons label r (rows : Table) :
  rows_equal field label (r :: rows)
  = (if decide (is_Some label ∧ hashable (field r) = Ok label)
     then [r] else []) ++ rows_equal field label rows.
Proof.
  destruct label as [k|]; unfold rows_equal.
  - rewrite filter_cons.
    destruct (decide (hashable (field r) = Ok (Some k))) as [Hk|Hk].
    + rewrite (decide_True (P := _ ∧ _)); [done|]. split; [by eexists|done].
    + rewrite (decide_False (P := _ ∧ _)); [done|]. by intros [_ ?].
  - rewrite (decide_False (P := _ ∧ _)); [done|]. by intros [[? [=]] _].
Qed.

Lemma Zsum_indicator (labels : list (option pykey)) (P : option pykey → Prop)
    `{!∀ l, Decision (P l)} x :
  NoDup labels →
  (∀ l l', P l → P l' → l = l') →
  Zsum ((λ l, if decide (P l) then x else 0) <$> labels)
  = if decide (Exists P labels) then x else 0.
Proof.
  intros Hnd Huniq. induction Hnd as [|l labels Hout Hnd IH]; [done|].
  rewrite fmap_cons. simpl. rewrite IH.
  destruct (decide (P l)) as [Hl|Hl];
    destruct (decide (Exists P labels)) as [Hex|Hex];
    destruct (decide (Exists P (l :: labels))) as [Hex'|Hex'];
    try lia.
  - apply Exists_exists in Hex as (l' & Hin & Hl').
    by rewrite (Huniq l l' Hl Hl') in Hout.
  - destruct Hex'. by left.
  - destruct Hex'. by left.
  - destruct Hex'. by right.
  - by apply Exists_cons in Hex' as [?|?].
Qed.

(** Over distinct labels that cover the keys of the rows, the rows of the
    labels weigh as much as all rows together. *)
Lemma rows_equal_partition (labels : list (option pykey)) (rows : Table) :
  NoDup labels →
  (∀ r, r ∈ rows → ∃ k, hashable (field r) = Ok (Some k) ∧ Some k ∈ labels) →
  Zsum ((λ label, Zsum (w <$> rows_equal field label rows)) <$> labels)
  = Zsum (w <$> rows).
Proof.
  intros Hnd. induction rows as [|r rows IH]; intros Hcover.
  - clear. induction labels as [|label labels IH]; [done|].
    rewrite !fmap_cons, Zsum_step, IH. by destruct label.
  - rewrite fmap_cons. simpl. rewrite <- IH.
    2:{ intros r' Hr'. apply Hcover. by right. }
    destruct (Hcover r) as (k & Hk & Hin); [left|].
    transitivity (Zsum ((λ label,
        (if decide (is_Some label ∧ hashable (field r) = Ok label)
         then w r else 0)
        + Zsum (w <$> rows_equal field label rows)) <$> labels)).
    { f_equal. apply list_fmap_ext. intros _ label _.
      rewrite rows_equal_cons, fmap_app, Zsum_app.
      case_decide; simpl; lia. }
    transitivity
      (Zsum ((λ label,
                if decide (is_Some label ∧ hashable (field r) = Ok label)
                then w r else 0) <$> labels)
       + Zsum ((λ label, Zsum (w <$> rows_equal field label rows)) <$> labels)).
    { clear. induction labels as [|l labels IH]; [done|].
      rewrite !fmap_cons. simpl. rewrite IH. lia. }
    f_equal. rewrite Zsum_indicator; [|done|].
    + rewrite decide_True; [done|]. apply Exists_exists.
      exists (Some k). split; [done|]. split; [by eexists|done].
    + intros l l' [_ Hl] [_ Hl']. congruence.
Qed.

End Partition.

(** ** The token distribution chart *)

Lemma add_tokens_row r sums :
  unhashable_id r = false → int64_tokens r = true →
  ∃ sums', add_tokens r sums = Ok sums' ∧
    ∀ k, sums' !! k
         = if decide (cell_key (session_id r) = Some k)
           then advance (sums !! k) [r] else sums !! k.
Proof.
  unfold unhashable_id, int64_tokens, add_tokens, advance, input_total,
    output_total.
  destruct (input_tokens r) as [| |zi| | |] eqn:Hi; try by intros _ [=].
  destruct (output_tokens r) as [| |zo| | |] eqn:Ho;
    try by (intros _; rewrite andb_false_r).
  destruct (session_id r) as [|b|z|s| |]; try done; intros _ _; cbn.
  - by exists sums.
  - eexists. split; [done|]. intros k.
    destruct (decide _) as [[= <-]|Hk].
    + rewrite lookup_insert_eq, Hi, Ho. unfold add64. simpl.
      by rewrite !Z.add_0_r.
    + rewrite lookup_insert_ne by congruence. done.
  - eexists. split; [done|]. intros k.
    destruct (decide _) as [[= <-]|Hk].
    + rewrite lookup_insert_eq, Hi, Ho. unfold add64. simpl.
      by rewrite !Z.add_0_r.
    + rewrite lookup_insert_ne by congruence. done.
  - eexists. split; [done|]. intros k.
    destruct (decide _) as [[= <-]|Hk].
    + rewrite lookup_insert_eq, Hi, Ho. unfold add64. simpl.
      by rewrite !Z.add_0_r.
    + rewrite lookup_insert_ne by congruence. done.
Qed.

Lemma input_total_cons r rows :
  input_total (r :: rows) = cell_value (input_tokens r) + input_total rows.
Proof. done. Qed.

Lemma output_total_cons r rows :
  output_total (r :: rows) = cell_value (output_tokens r) + output_total rows.
Proof. done. Qed.

Lemma advance_cons s r rows :
  advance (advance s [r]) rows = advance s (r :: rows).
Proof.
  unfold advance. destruct rows as [|r' rows]; [done|].
  cbn -[input_total output_total wrap64].
  rewrite !wrap64_add_l, !(input_total_cons r), !(output_total_cons r).
  change (input_total []) with 0. change (output_total []) with 0.
  f_equal. apply injective_projections; cbn [fst snd]; f_equal; lia.
Qed.

Lemma add_tokens_fold rows sums :
  Forall (λ r, unhashable_id r = false) rows →
  Forall (λ r, int64_tokens r = true) rows →
  ∃ sums', for_each add_tokens rows sums = Ok sums' ∧
    ∀ k, sums' !! k
         = advance (sums !! k)
             (filter (λ r : Row, cell_key (session_id r) = Some k) rows).
Proof.
  intros Hids. revert sums.
  induction Hids as [|r rows Hr _ IH]; intros sums Hints; simpl.
  - by exists sums.
  - apply Forall_cons in Hints as [Hint Hints].
    destruct (add_tokens_row r sums Hr Hint) as (sums1 & -> & Hsums1). simpl.
    destruct (IH sums1 Hints) as (sums' & -> & Hsums'). exists sums'.
    split; [done|]. intros k. rewrite Hsums', Hsums1, filter_cons.
    case_decide; [apply advance_cons|done].
Qed.

Lemma Forall_rows_of_file (P : Row → Prop) tbl name :
  Forall P tbl → Forall P (rows_of_file tbl name).
Proof.
  rewrite !Forall_forall. intros Hall r [_ Hr]%list_elem_of_filter. by apply Hall.
Qed.

(** What the chart draws, in terms of the rows of the sessions. *)
Lemma session_tokens_spec tbl name :
  Forall (λ r, int64_tokens r = true) tbl →
  Forall (λ r, unhashable_id r = false) (rows_of_file tbl name) →
  ∃ sums, session_tokens tbl name = Ok (sorted_items key_le sums)
    ∧ ∀ k, sums !! k = advance None (rows_of_session tbl name k).
Proof.
  intros Hints Hids. unfold session_tokens. rewrite file_rows_spec.
  destruct (add_tokens_fold _ ∅ Hids (Forall_rows_of_file _ _ _ Hints))
    as (sums & -> & Hsums).
  exists sums. split; [done|]. intros k. by rewrite Hsums, lookup_empty.
Qed.

(** C6, as the code has it. On a table whose token columns are int64 (every
    cell an integer that fits in 64 bits) and for a file whose session ids
    can be group keys, the chart data exist, there is one pair of bars per
    session of the file, and the two heights of a session are the sums of
    [input_tokens] and of [output_tokens] over the rows of the table with
    that source file and that session id, taken in int64: the exact sums
    reduced modulo [2^64], which are the exact sums themselves whenever
    these fit in 64 bits. *)
Theorem token_bars_are_session_sums tbl source_file_name :
  Forall (λ r, int64_tokens r = true) tbl →
  Forall (λ r, unhashable_id r = false) (rows_of_file tbl source_file_name) →
  ∃ bars, session_tokens tbl source_file_name = Ok bars
    ∧ NoDup bars.*1
    ∧ (∀ k i o, (k, (i, o)) ∈ bars ↔
         rows_of_session tbl source_file_name k ≠ []
         ∧ i = wrap64 (input_total (rows_of_session tbl source_file_name k))
         ∧ o = wrap64 (output_total (rows_of_session tbl source_file_name k)))
    ∧ (∀ k i o, (k, (i, o)) ∈ bars →
         (- 2 ^ 63 ≤ input_total (rows_of_session tbl source_file_name k) < 2 ^ 63 →
          i = input_total (rows_of_session tbl source_file_name k))
         ∧ (- 2 ^ 63 ≤ output_total (rows_of_session tbl source_file_name k) < 2 ^ 63 →
            o = output_total (rows_of_session tbl source_file_name k))).
Proof.
  intros Hints Hids.
  destruct (session_tokens_spec _ _ Hints Hids) as (sums & -> & Hsums).
  assert (Hbars : ∀ k i o, (k, (i, o)) ∈ sorted_items key_le sums ↔
    rows_of_session tbl source_file_name k ≠ []
    ∧ i = wrap64 (input_total (rows_of_session tbl source_file_name k))
    ∧ o = wrap64 (output_total (rows_of_session tbl source_file_name k))).
  { intros k i o. rewrite elem_of_sorted_items, Hsums. unfold advance.
    destruct (rows_of_session tbl source_file_name k) as [|r rows]; simpl.
    - split; [done|]. by intros [? _].
    - split.
      + intros [= <- <-]. done.
      + intros (_ & -> & ->). done. }
  eexists. split; [done|]. split_and!.
  - unfold sorted_items. rewrite merge_sort_Permutation.
    apply NoDup_fst_map_to_list.
  - done.
  - intros k i o (_ & -> & ->)%Hbars. split; intros Hfit; by apply wrap64_small.
Qed.

(** Three rows of one file in two sessions. *)
Lemma token_bars_are_session_sums_witness :
  ∃ bars,
    session_tokens [sample_row 9 "hi" "s1" 10 20; sample_row 9 "yo" "s2" 1 2;
                    sample_row 10 "ok" "s1" 5 5] "chat.json" = Ok bars
    ∧ NoDup bars.*1
    ∧ (∀ k i o, (k, (i, o)) ∈ bars ↔
         rows_of_session [sample_row 9 "hi" "s1" 10 20; sample_row 9 "yo" "s2" 1 2;
                          sample_row 10 "ok" "s1" 5 5] "chat.json" k ≠ []
         ∧ i = wrap64 (input_total (rows_of_session
                 [sample_row 9 "hi" "s1" 10 20; sample_row 9 "yo" "s2" 1 2;
                  sample_row 10 "ok" "s1" 5 5] "chat.json" k))
         ∧ o = wrap64 (output_total (rows_of_session
                 [sample_row 9 "hi" "s1" 10 20; sample_row 9 "yo" "s2" 1 2;
                  sample_row 10 "ok" "s1" 5 5] "chat.json" k)))
    ∧ (∀ k i o, (k, (i, o)) ∈ bars →
         (- 2 ^ 63 ≤ input_total (rows_of_session
              [sample_row 9 "hi" "s1" 10 20; sample_row 9 "yo" "s2" 1 2;
               sample_row 10 "ok" "s1" 5 5] "chat.json" k) < 2 ^ 63 →
          i = input_total (rows_of_session
                [sample_row 9 "hi" "s1" 10 20; sample_row 9 "yo" "s2" 1 2;
                 sample_row 10 "ok" "s1" 5 5] "chat.json" k))
         ∧ (- 2 ^ 63 ≤ output_total (rows_of_session
                [sample_row 9 "hi" "s1" 10 20; sample_row 9 "yo" "s2" 1 2;
                 sample_row 10 "ok" "s1" 5 5] "chat.json" k) < 2 ^ 63 →
            o = output_total (rows_of_session
                  [sample_row 9 "hi" "s1" 10 20; sample_row 9 "yo" "s2" 1 2;
                   sample_row 10 "ok" "s1" 5 5] "chat.json" k))).
Proof.
  apply token_bars_are_session_sums; forall_rows.
Defined.

(** C6, as the claim has it, fails where a sum leaves int64: two rows of one
    session with [2^63 - 1] and 1 input tokens have the exact sum [2^63],
    and the bar the chart draws has the height [- 2^63]. *)
Lemma token_bar_wraps :
  session_tokens [sample_row 9 "a" "s1" 9223372036854775807 0;
                  sample_row 9 "b" "s1" 1 0] "chat.json"
  = Ok [(inr "s1", (-9223372036854775808, 0))]
  ∧ input_total (rows_of_session
      [sample_row 9 "a" "s1" 9223372036854775807 0;
       sample_row 9 "b" "s1" 1 0] "chat.json" (inr "s1"))
    = 9223372036854775808.
Proof. by vm_compute. Qed.

(** ** The overall statistics *)

Lemma seen_fold (keys : list pykey) (seen : gset pykey) :
  foldl (λ (seen : gset pykey) k, {[k]} ∪ seen) seen keys
  = seen ∪ list_to_set keys.
Proof.
  revert seen. induction keys as [|k keys IH]; intros seen; simpl.
  - by rewrite (right_id_L ∅ (∪)).
  - by rewrite IH, (comm_L (∪) {[k]} seen), <- (assoc_L (∪)).
Qed.

Lemma size_seen (keys : list pykey) :
  size (foldl (λ (seen : gset pykey) k, {[k]} ∪ seen) ∅ keys)
  = length (remove_dups keys).
Proof.
  rewrite seen_fold, (left_id_L ∅ (∪)).
  rewrite <- (size_list_to_set (C := gset pykey) (remove_dups keys))
    by apply NoDup_remove_dups.
  f_equal. apply set_eq. intros k.
  by rewrite !elem_of_list_to_set, elem_of_remove_dups.
Qed.

Lemma omap_id_fmap {A B : Type} (f : A → option B) (l : list A) :
  omap id (f <$> l) = omap f l.
Proof.
  induction l as [|x l IH]; [done|]. csimpl. rewrite IH.
  by destruct (f x).
Qed.

Lemma traverse_fmap {X Y W : Type} (f : Y → result W) (h : X → Y) xs :
  traverse f (h <$> xs) = traverse (f ∘ h) xs.
Proof.
  induction xs as [|x xs IH]; [done|]. csimpl. by rewrite IH.
Qed.

Lemma countable_row_cells (r : Row) :
  countable_row r = true →
  hashable (session_id r) = Ok (cell_key (session_id r))
  ∧ numeric (total_tokens r)
    = Ok (match total_tokens r with
          | JInt z => Some z
          | JBool b => Some (Z.b2z b)
          | _ => None
          end).
Proof.
  unfold countable_row.
  destruct (session_id r), (total_tokens r); try done; eauto.
Qed.

Lemma overall_statistics_countable tbl :
  Forall (λ r, countable_row r = true) tbl →
  overall_statistics tbl
  = Ok {| total_sessions :=
            size (foldl (λ (seen : gset pykey) k, {[k]} ∪ seen) ∅ (session_keys tbl));
          total_interactions := length tbl;
          total_tokens_used := sum64 (token_values tbl);
          avg_tokens_per_interaction := mean (token_values tbl) |}.
Proof.
  intros Hall. rewrite Forall_forall in Hall.
  unfold overall_statistics, nunique.
  rewrite !traverse_fmap.
  rewrite (traverse_total _ (λ r : Row, cell_key (session_id r))).
  2:{ intros r Hr. unfold compose.
      by destruct (countable_row_cells r (Hall r Hr)) as [-> _]. }
  cbn [mbind result_bind].
  rewrite (traverse_total _ (λ r : Row,
    match total_tokens r with
    | JInt z => Some z
    | JBool b => Some (Z.b2z b)
    | _ => None
    end)).
  2:{ intros r Hr. unfold compose.
      by destruct (countable_row_cells r (Hall r Hr)) as [_ ->]. }
  cbn [mbind result_bind]. by rewrite !omap_id_fmap.
Qed.

(** The float64 mean of integers whose absolute values add up to less than
    [2^53] is their exact mean, rounded once. *)
Lemma mean_exact values :
  values ≠ [] →
  Zsum (Z.abs <$> values) < 2 ^ 53 →
  Z.of_nat (length values) < 2 ^ 53 →
  mean values
  = Some (binary64 (inject_Z (Zsum values)
                    / inject_Z (Z.of_nat (length values)))).
Proof.
  intros Hne Hsum Hlen. destruct values as [|v values]; [done|].
  unfold mean. set (vs := v :: values) in *.
  change 0%Q with (inject_Z 0). rewrite float_sum_exact by lia.
  rewrite float_of_int_exact by lia. done.
Qed.

Lemma int64_countable (r : Row) :
  is_int64 (total_tokens r) = true → unhashable_id r = false →
  countable_row r = true.
Proof.
  unfold is_int64, unhashable_id, countable_row.
  by destruct (session_id r), (total_tokens r).
Qed.

Lemma token_values_int64 tbl :
  Forall (λ r, is_int64 (total_tokens r) = true) tbl →
  token_values tbl = (λ r : Row, cell_value (total_tokens r)) <$> tbl.
Proof.
  unfold token_values. induction 1 as [|r tbl Hr _ IH]; [done|].
  csimpl. rewrite IH. by destruct (total_tokens r).
Qed.

(** C9, as the code has it. On a table whose [total_tokens] column is int64
    (every cell an integer that fits in 64 bits) and whose session ids can
    be counted, the overall statistics are: the number of distinct session
    ids; the number of rows; the sum of [total_tokens] in int64, that is
    the exact sum modulo [2^64], and the exact sum itself when it fits in
    64 bits; and the mean of [total_tokens] in float64. While the absolute
    values of the cells add up to less than [2^53] (and there are fewer
    rows than that), the mean is the exact mean rounded to the nearest
    float64: it differs from the exact mean by at most its fraction
    [2^-53], and it is the exact mean when that is an integer. One input
    file with one session of two turns with totals 30 and 10, loaded and
    processed, gives a table of 2 rows, 40 tokens in total and the
    average 20. *)
Theorem overall_statistics_spec :
  (∀ tbl,
     Forall (λ r, is_int64 (total_tokens r) = true) tbl →
     Forall (λ r, unhashable_id r = false) tbl →
     ∃ st, overall_statistics tbl = Ok st
       ∧ total_sessions st = length (remove_dups (session_keys tbl))
       ∧ total_interactions st = length tbl
       ∧ total_tokens_used st = wrap64 (tokens_total tbl)
       ∧ (- 2 ^ 63 ≤ tokens_total tbl < 2 ^ 63 →
          total_tokens_used st = tokens_total tbl)
       ∧ (tbl ≠ [] → magnitude total_tokens tbl < 2 ^ 53 →
          Z.of_nat (length tbl) < 2 ^ 53 →
          let exact := (inject_Z (tokens_total tbl)
                        / inject_Z (Z.of_nat (length tbl)))%Q in
          avg_tokens_per_interaction st = Some (binary64 exact)
          ∧ (Qabs (binary64 exact - exact) <= Qabs exact * (1 # 2 ^ 53))%Q
          ∧ ∀ m, tokens_total tbl = m * Z.of_nat (length tbl) →
                 avg_tokens_per_interaction st = Some (inject_Z m)))
  ∧ (tbl ← process_data iso_convert
             (all_data (load_json_files scenario_directory init));
     st ← overall_statistics tbl;
     Ok (length tbl, st))
    = Ok (2%nat, {| total_sessions := 1; total_interactions := 2;
                    total_tokens_used := 40;
                    avg_tokens_per_interaction := Some (20 # 1) |}).
Proof.
  split; [|by vm_compute]. intros tbl Hints Hids.
  rewrite overall_statistics_countable.
  2:{ rewrite Forall_forall in *. intros r Hr.
      apply int64_countable; [by apply Hints|by apply Hids]. }
  eexists. split; [done|]. cbn [total_sessions total_interactions
    total_tokens_used avg_tokens_per_interaction].
  rewrite (token_values_int64 _ Hints), sum64_spec. fold (tokens_total tbl).
  cbv zeta.
  split_and!; [apply size_seen|done|done|by intros ?%wrap64_small|].
  intros Hne Hmag Hlen.
  set (exact := (inject_Z (tokens_total tbl)
                 / inject_Z (Z.of_nat (length tbl)))%Q).
  assert (Havg : mean ((λ r : Row, cell_value (total_tokens r)) <$> tbl)
                 = Some (binary64 exact)).
  { rewrite mean_exact.
    - by rewrite length_fmap.
    - by destruct tbl.
    - unfold magnitude in Hmag. by rewrite <- list_fmap_compose.
    - by rewrite length_fmap. }
  split_and!; [done|apply binary64_near|].
  intros m Hm. rewrite Havg. f_equal. apply binary64_exact.
  - unfold exact. rewrite Hm, inject_Z_mult. field.
    intros H0. unfold Qeq in H0. simpl in H0. destruct tbl; [done|simpl in H0; lia].
  - assert (Z.abs (tokens_total tbl) < 2 ^ 53) as Hsum.
    { eapply Z.le_lt_trans; [|exact Hmag]. unfold tokens_total, magnitude.
      rewrite (list_fmap_compose (λ r : Row, cell_value (total_tokens r)) Z.abs).
      apply Zsum_abs_le. }
    assert (0 < Z.of_nat (length tbl)) by (destruct tbl; [done|simpl; lia]).
    rewrite Hm in Hsum. nia.
Qed.

(** The statistics of a table of two rows of one session. *)
Lemma overall_statistics_spec_witness :
  ∃ st, overall_statistics
          [sample_row 9 "a" "s1" 10 20; sample_row 9 "b" "s1" 5 5] = Ok st
    ∧ total_sessions st
      = length (remove_dups (session_keys
          [sample_row 9 "a" "s1" 10 20; sample_row 9 "b" "s1" 5 5]))
    ∧ total_interactions st = 2%nat
    ∧ total_tokens_used st
      = wrap64 (tokens_total
          [sample_row 9 "a" "s1" 10 20; sample_row 9 "b" "s1" 5 5])
    ∧ (- 2 ^ 63 ≤ tokens_total
          [sample_row 9 "a" "s1" 10 20; sample_row 9 "b" "s1" 5 5] < 2 ^ 63 →
       total_tokens_used st
       = tokens_total [sample_row 9 "a" "s1" 10 20; sample_row 9 "b" "s1" 5 5])
    ∧ ([sample_row 9 "a" "s1" 10 20; sample_row 9 "b" "s1" 5 5] ≠ [] →
       magnitude total_tokens
         [sample_row 9 "a" "s1" 10 20; sample_row 9 "b" "s1" 5 5] < 2 ^ 53 →
       Z.of_nat 2 < 2 ^ 53 →
       let exact := (inject_Z (tokens_total
                       [sample_row 9 "a" "s1" 10 20; sample_row 9 "b" "s1" 5 5])
                     / inject_Z (Z.of_nat 2))%Q in
       avg_tokens_per_interaction st = Some (binary64 exact)
       ∧ (Qabs (binary64 exact - exact) <= Qabs exact * (1 # 2 ^ 53))%Q
       ∧ ∀ m, tokens_total
                [sample_row 9 "a" "s1" 10 20; sample_row 9 "b" "s1" 5 5]
              = m * Z.of_nat 2 →
              avg_tokens_per_interaction st = Some (inject_Z m)).
Proof.
  apply (proj1 overall_statistics_spec
           [sample_row 9 "a" "s1" 10 20; sample_row 9 "b" "s1" 5 5]);
    repeat constructor.
Defined.

(** C9, as the claim has it, fails where the sum leaves int64: two rows with
    the totals [2^63 - 1] and 1 have the exact sum [2^63], and the total the
    report prints is [- 2^63]. *)
Lemma total_tokens_wrap :
  total_tokens_used <$>
    overall_statistics [sample_row 9 "a" "s1" 9223372036854775807 0;
                        sample_row 9 "b" "s1" 1 0]
  = Ok (-9223372036854775808)
  ∧ tokens_total [sample_row 9 "a" "s1" 9223372036854775807 0;
                  sample_row 9 "b" "s1" 1 0]
    = 9223372036854775808.
Proof. by vm_compute. Qed.

(** ** The top words of the report *)

(** C1, on the code: for the single prompt "the the cat" the report prints
    "the" (2 times) and then "cat", while the first five entries of the
    chart's ranking, which drops the stop words, are "cat" alone. The report
    uses the chart's tokenization but not its stop-word rule. *)
Theorem report_keeps_stop_words str_of_cell :
  let tbl := [sample_row 9 "the the cat" "s1" 0 0] in
  top_topics str_of_cell tbl = Ok [("the", 2%nat); ("cat", 1%nat)]
  ∧ (take 5 ∘ ranking) <$> chart_word_freq str_of_cell (file_rows tbl "chat.json")
    = Ok [("cat", 1%nat)]
  ∧ common_words str_of_cell tbl "chat.json" = Ok (["cat"], [1%nat]).
Proof. by vm_compute. Qed.

(** * More properties *)

(** ** The loader: composition and tags *)

Lemma json_files_app d1 d2 : json_files (d1 ++ d2) = json_files d1 ++ json_files d2.
Proof. apply List.filter_app. Qed.

Lemma load_json_files_data directory self :
  all_data (load_json_files directory self)
  = all_data self ++ omap tagged (json_files directory).
Proof.
  unfold load_json_files. fold (json_files directory). simpl.
  by destruct (load_files_fold (json_files directory) self) as [-> _].
Qed.

Lemma load_json_files_stdout directory self :
  stdout (load_json_files directory self)
  = stdout self ++ (report_line <$> json_files directory)
    ++ [TotalFilesLoaded (length (all_data (load_json_files directory self)))].
Proof.
  rewrite load_json_files_data.
  unfold load_json_files. fold (json_files directory). simpl.
  destruct (load_files_fold (json_files directory) self) as [Hdata ->].
  by rewrite Hdata, <- app_assoc.
Qed.

(** X1. Loading keeps what was loaded before: loading [d1 ++ d2] leaves the
    same documents as loading [d1] and then [d2] with the same analyzer, and
    loading one directory twice holds every document twice; the second total
    printed counts both passes. *)
Theorem load_json_files_accumulates d1 d2 self :
  all_data (load_json_files (d1 ++ d2) self)
  = all_data (load_json_files d2 (load_json_files d1 self))
  ∧ all_data (load_json_files d1 (load_json_files d1 init))
    = all_data (load_json_files d1 init) ++ all_data (load_json_files d1 init)
  ∧ last (stdout (load_json_files d1 (load_json_files d1 init)))
    = Some (TotalFilesLoaded (2 * length (all_data (load_json_files d1 init)))).
Proof.
  rewrite !load_json_files_data, json_files_app, omap_app, app_assoc.
  split; [done|]. split; [done|].
  rewrite load_json_files_stdout, !load_json_files_data, !app_assoc, last_snoc.
  simpl. rewrite length_app. do 2 f_equal. lia.
Qed.

Lemma tagged_spec entry d :
  tagged entry = Some d →
  ∃ m, entry.2 = Ok (JDict m) ∧ d = JDict (<["source_file" := JStr entry.1]> m).
Proof.
  unfold tagged. destruct entry as [name [[| | | | |m]|e]]; try done.
  intros [= <-]. by exists m.
Qed.

Lemma elem_of_json_files entry directory :
  entry ∈ json_files directory ↔ entry ∈ directory ∧ endswith entry.1 ".json" = true.
Proof.
  unfold json_files. rewrite !list_elem_of_In, List.filter_In. done.
Qed.

Lemma loaded_document directory d :
  d ∈ all_data (load_json_files directory init) →
  ∃ name m, (name, Ok (JDict m)) ∈ directory
    ∧ endswith name ".json" = true
    ∧ d = JDict (<["source_file" := JStr name]> m).
Proof.
  rewrite load_json_files_data. simpl.
  intros (entry & Hin & Htag)%list_elem_of_omap.
  apply tagged_spec in Htag as (m & Hm & ->).
  apply elem_of_json_files in Hin as [Hin Hname].
  destruct entry as [name content]. simpl in *. subst. by exists name, m.
Qed.

(** X2. Every document a fresh analyzer holds after loading is the object
    of a directory entry whose name ends in [.json], with that name stored
    under [source_file]; a [source_file] key the file had is overwritten. *)
Theorem loaded_documents_are_tagged directory d :
  d ∈ all_data (load_json_files directory init) →
  ∃ name m, (name, Ok (JDict m)) ∈ directory
    ∧ endswith name ".json" = true
    ∧ d = JDict (<["source_file" := JStr name]> m)
    ∧ py_get d "source_file" (JStr "Unknown") = Ok (JStr name).
Proof.
  intros (name & m & Hin & Hname & ->)%loaded_document.
  exists name, m. repeat split; try done.
  simpl. by rewrite lookup_insert_eq.
Qed.

(** The entry that is no [.json] file is skipped; the loaded document
    carries the name of its file. *)
Lemma loaded_documents_are_tagged_witness :
  ∃ name m, (name, Ok (JDict m))
              ∈ [("notes.txt", Ok JNull); ("bad.json", Ok (JDict bad_document))]
    ∧ endswith name ".json" = true
    ∧ JDict (<["source_file" := JStr "bad.json"]> bad_document)
      = JDict (<["source_file" := JStr name]> m)
    ∧ py_get (JDict (<["source_file" := JStr "bad.json"]> bad_document))
        "source_file" (JStr "Unknown") = Ok (JStr name).
Proof.
  apply (loaded_documents_are_tagged
           [("notes.txt", Ok JNull); ("bad.json", Ok (JDict bad_document))]).
  vm_compute. left.
Defined.

(** ** The flattening loops: when they return, and how they compose *)

Section Accumulators.
Context {X R : Type}.
Implicit Types (body : X → list R → result (list R)).

(** A loop whose body only appends does the same from any start. *)
Lemma for_each_from body xs :
  (∀ x acc, x ∈ xs → body x acc = (app acc) <$> body x []) →
  ∀ acc, for_each body xs acc = (app acc) <$> for_each body xs [].
Proof.
  induction xs as [|x xs IH]; intros Hbody acc; simpl.
  - by rewrite app_nil_r.
  - assert (Hxs : ∀ y a, y ∈ xs → body y a = (app a) <$> body y []).
    { intros y a Hy. apply Hbody. by right. }
    rewrite (Hbody x acc) by left.
    destruct (body x []) as [rows|e]; simpl; [|done].
    rewrite (IH Hxs (acc ++ rows)), (IH Hxs rows).
    destruct (for_each body xs []) as [rest|e]; simpl; [|done].
    by rewrite app_assoc.
Qed.

Lemma for_each_succeeds body (ok : X → bool) xs :
  (∀ x acc, x ∈ xs → succeeds (body x acc) = ok x) →
  ∀ acc, succeeds (for_each body xs acc) = forallb ok xs.
Proof.
  induction xs as [|x xs IH]; intros Hbody acc; simpl; [done|].
  rewrite <- (Hbody x acc) by left.
  destruct (body x acc) as [mid|e]; simpl; [|done].
  apply IH. intros y a Hy. apply Hbody. by right.
Qed.

End Accumulators.

Lemma turn_body_from u p s d t f chat acc :
  turn_body u p s d t f chat acc = (app acc) <$> turn_body u p s d t f chat [].
Proof. by destruct chat. Qed.

Lemma session_body_from session_data chat_session acc :
  session_body session_data chat_session acc
  = (app acc) <$> session_body session_data chat_session [].
Proof.
  unfold session_body.
  destruct chat_session as [| | | | |sm]; try done.
  destruct session_data as [| | | | |dm]; try done. simpl.
  destruct (py_iter _) as [chats|e]; simpl; [|done].
  apply for_each_from. intros chat a _. apply turn_body_from.
Qed.

Lemma document_body_from session_data acc :
  document_body session_data acc = (app acc) <$> document_body session_data [].
Proof.
  unfold document_body.
  destruct session_data as [| | | | |dm]; try done. simpl.
  destruct (py_iter _) as [sessions|e]; simpl; [|done].
  apply for_each_from. intros s a _. apply session_body_from.
Qed.

(** X3. Flattening composes: the rows of [a ++ b] are the rows of [a]
    followed by the rows of [b], and the first exception of either is the
    exception of the whole. *)
Theorem flatten_app a b :
  flatten (a ++ b)
  = (rows_a ← flatten a; rows_b ← flatten b; Ok (rows_a ++ rows_b)).
Proof.
  unfold flatten. rewrite for_each_app.
  destruct (for_each document_body a []) as [rows_a|e]; simpl; [|done].
  rewrite for_each_from by (intros d acc _; apply document_body_from).
  by destruct (for_each document_body b []).
Qed.

Lemma iterates_spec (ok : json → bool) (m : gmap string json) key
    (body : json → list RawRow → result (list RawRow)) acc :
  (∀ x a, succeeds (body x a) = ok x) →
  (∀ c a, succeeds (body (JStr c) a) = false) →
  succeeds (xs ← py_iter (default (JList []) (m !! key)); for_each body xs acc)
  = iterates ok (m !! key).
Proof.
  intros Hbody Hstr. unfold iterates.
  destruct (m !! key) as [[| | |s|l|d]|]; simpl; try done.
  - destruct s as [|c s]; simpl; [done|].
    specialize (Hstr (String c "") acc). by destruct (body _ acc).
  - by apply for_each_succeeds.
  - rewrite <- (length_map_to_list d).
    destruct (map_to_list d) as [|[k v] kvs]; simpl; [done|].
    specialize (Hstr k acc). by destruct (body _ acc).
Qed.

Lemma session_body_succeeds dm chat_session acc :
  succeeds (session_body (JDict dm) chat_session acc)
  = flattens_session chat_session.
Proof.
  destruct chat_session as [| | | | |sm]; try done.
  unfold session_body. simpl. apply iterates_spec.
  - intros chat a. by destruct chat.
  - done.
Qed.

Lemma document_body_succeeds session_data acc :
  succeeds (document_body session_data acc) = flattens_document session_data.
Proof.
  destruct session_data as [| | | | |dm]; try done.
  unfold document_body. simpl. apply iterates_spec.
  - intros s a. apply session_body_succeeds.
  - done.
Qed.

Lemma flatten_succeeds all_data :
  succeeds (flatten all_data) = forallb flattens_document all_data.
Proof.
  apply for_each_succeeds. intros d acc _. apply document_body_succeeds.
Qed.

(** X4. The flattening loops return exactly when every document is an object
    whose [chat_history] is missing or a list of objects whose [chat_data]
    is missing or a list of objects (an empty string or an empty object in
    the place of a list also passes: it iterates over nothing). They then
    return the rows of the turns in document order; in every other case
    they raise: a wrong shape is not replaced by a default. *)
Theorem flatten_returns_iff all_data :
  if forallb flattens_document all_data
  then flatten all_data = Ok (flat_records all_data)
  else ∃ e, flatten all_data = Raise e.
Proof.
  rewrite <- flatten_succeeds.
  destruct (flatten all_data) as [rows|e] eqn:Hrun; simpl.
  - by rewrite (flatten_sound _ _ Hrun).
  - by exists e.
Qed.

(** ** The table [process_data] returns *)

Lemma traverse_Forall2 {X Y : Type} (f : X → result Y) xs ys :
  traverse f xs = Ok ys ↔ Forall2 (λ x y, f x = Ok y) xs ys.
Proof.
  revert ys. induction xs as [|x xs IH]; intros ys; simpl.
  - split; [by intros [= <-]|by inversion 1].
  - destruct (f x) as [y|e] eqn:Hx; simpl.
    + destruct (traverse f xs) as [ys'|e] eqn:Hxs; simpl.
      * split.
        -- intros [= <-]. constructor; [done|]. by apply IH.
        -- inversion 1 as [|? y' ? ys'' Hy Hys]; subst.
           apply IH in Hys. congruence.
      * split; [done|]. inversion 1 as [|? y' ? ys'' Hy Hys]; subst.
        by apply IH in Hys.
    + split; [done|]. inversion 1; congruence.
Qed.

Section Dates.
Context (f g : RawRow → result (option datetime)).

Lemma assign_dates_dated rows ts sd :
  Forall2 (λ raw t, f raw = Ok t) rows ts →
  Forall2 (λ raw s, g raw = Ok s) rows sd →
  Forall2 (dated f g) rows (assign_dates rows ts sd).
Proof.
  intros Hts. revert sd.
  induction Hts as [|raw t rows ts Ht _ IH]; intros sd Hsd;
    inversion Hsd; subst; simpl; constructor; [|by apply IH].
  by exists t, y.
Qed.

Lemma dated_assign_dates rows tbl :
  Forall2 (dated f g) rows tbl →
  ∃ ts sd, Forall2 (λ raw t, f raw = Ok t) rows ts
    ∧ Forall2 (λ raw s, g raw = Ok s) rows sd
    ∧ tbl = assign_dates rows ts sd.
Proof.
  induction 1 as [|raw row rows tbl (t & s & Ht & Hs & ->) _
                    (ts & sd & Hts & Hsd & ->)].
  - by exists [], [].
  - exists (t :: ts), (s :: sd). repeat split; by constructor.
Qed.

End Dates.

(** X5. [process_data] returns a table exactly when the flattening returns
    at least one row and every cell of the two date columns converts; the
    table then has one row per flat record, in the same order, with the ten
    other cells untouched and the two date cells converted. *)
Theorem process_data_returns_iff convert all_data tbl :
  process_data convert all_data = Ok tbl ↔
  ∃ rows, flatten all_data = Ok rows ∧ 0 < Z.of_nat (length rows)
    ∧ Forall2 (λ raw row, ∃ ts sd,
        to_datetime_scalar convert (timestamp <$> rows) (timestamp raw) = Ok ts
        ∧ to_datetime_scalar convert (session_datetime <$> rows)
            (session_datetime raw) = Ok sd
        ∧ row = with_dates raw ts sd) rows tbl.
Proof.
  split.
  - intros (r & rows & ts & sd & Hflat & Hts & Hsd & ->)%process_data_ok.
    exists (r :: rows). split; [done|]. split; [simpl; lia|].
    unfold to_datetime in Hts, Hsd.
    rewrite traverse_fmap, traverse_Forall2 in Hts, Hsd.
    by apply (assign_dates_dated _ _ _ _ _ Hts Hsd).
  - intros (rows & Hflat & Hlen & Hrows).
    apply (dated_assign_dates
             (to_datetime_scalar convert (timestamp <$> rows) ∘ timestamp)
             (to_datetime_scalar convert (session_datetime <$> rows)
                ∘ session_datetime)) in Hrows as (ts & sd & Hts & Hsd & ->).
    apply traverse_Forall2 in Hts, Hsd. rewrite <- traverse_fmap in Hts, Hsd.
    unfold process_data. rewrite Hflat.
    destruct rows as [|r rows]; [simpl in Hlen; lia|].
    cbn [mbind result_bind].
    rewrite getitem_timestamp, getitem_session_datetime.
    cbn [mbind result_bind]. unfold to_datetime. by rewrite Hts, Hsd.
Qed.

(** ** Tables without timestamps *)

Lemma count_hour_no_timestamp (tbl : Table) sizes :
  Forall (λ r : Row, timestamp r = None) tbl → foldl count_hour sizes tbl = sizes.
Proof.
  intros Hall. revert sizes.
  induction Hall as [|r tbl Hr _ IH]; intros sizes; simpl; [done|].
  unfold count_hour at 2. rewrite Hr. apply IH.
Qed.

Lemma busiest_hour_no_timestamp (tbl : Table) :
  Forall (λ r : Row, timestamp r = None) tbl → busiest_hour tbl = Raise ValueError.
Proof.
  intros Hall. unfold busiest_hour, hourly_size.
  rewrite (count_hour_no_timestamp _ _ Hall).
  unfold sorted_items. by rewrite map_to_list_empty.
Qed.

Lemma rows_at_timestamp (tbl : Table) r t :
  r ∈ tbl → timestamp r = Some t → (0 < rows_at (hour t) tbl)%nat.
Proof.
  intros Hin Ht. unfold rows_at.
  assert (r ∈ filter (λ r : Row, hour <$> timestamp r = Some (hour t)) tbl) as Hf.
  { apply list_elem_of_filter. split; [by rewrite Ht|done]. }
  destruct (filter _ tbl); [by apply not_elem_of_nil in Hf|simpl; lia].
Qed.

(** X6. The busiest hour raises exactly when no row of the table has a
    timestamp (every one is [NaT], or the table is empty), and what it
    raises is the [ValueError] of [idxmax] on an empty series. *)
Theorem busiest_hour_raises_iff (tbl : Table) e :
  busiest_hour tbl = Raise e ↔
  e = ValueError ∧ Forall (λ r : Row, timestamp r = None) tbl.
Proof.
  split.
  - intros Hrun. unfold busiest_hour, idxmax in Hrun.
    destruct (hourly_size tbl) as [|best rest] eqn:Hsize; [|done].
    split; [congruence|]. apply Forall_forall. intros r Hr.
    destruct (timestamp r) as [t|] eqn:Ht; [|done]. exfalso.
    pose proof (rows_at_timestamp _ _ _ Hr Ht) as Hpos.
    assert ((hour t, rows_at (hour t) tbl) ∈ hourly_size tbl) as Hin
      by (by apply hourly_size_lookup).
    rewrite Hsize in Hin. by apply not_elem_of_nil in Hin.
  - intros [-> Hall]. by apply busiest_hour_no_timestamp.
Qed.

Lemma blank_is_NaT convert column (field : option json) :
  blank field = true →
  to_datetime_scalar convert column (default (JStr "") field) = Ok None.
Proof. by destruct field as [[| | |[|c s]| |]|]. Qed.

Lemma undated_list_of ok ok' (field : option json) :
  (∀ x, ok x = true → ok' x = true) →
  list_of ok field = true → list_of ok' field = true.
Proof.
  intros Himp. destruct field as [[| | | |l|]|]; simpl; try done.
  rewrite !forallb_forall. eauto.
Qed.

Lemma undated_document_wf session_data :
  undated_document session_data = true → wf_document session_data = true.
Proof.
  destruct session_data as [| | | | |dm]; try done. simpl.
  apply undated_list_of. intros s. destruct s as [| | | | |sm]; try done. simpl.
  intros [_ Hturns]%andb_prop. revert Hturns.
  apply undated_list_of. intros c. by destruct c.
Qed.

Lemma undated_rows convert cts csd all_data r :
  forallb undated_document all_data = true → r ∈ flat_records all_data →
  to_datetime_scalar convert cts (timestamp r) = Ok None
  ∧ to_datetime_scalar convert csd (session_datetime r) = Ok None.
Proof.
  intros Hall (dm & sm & tm & (Hd & Hs & Hc) & ->)%turn_of_flat_records.
  rewrite forallb_forall in Hall.
  specialize (Hall _ (proj1 (list_elem_of_In _ _) Hd)). simpl in Hall.
  destruct (list_of_entries _ _ _ Hall) as [_ Hsessions].
  rewrite Forall_forall in Hsessions. specialize (Hsessions _ Hs).
  simpl in Hsessions. apply andb_prop in Hsessions as [Hdate Hturns].
  destruct (list_of_entries _ _ _ Hturns) as [_ Hchats].
  rewrite Forall_forall in Hchats. specialize (Hchats _ Hc). simpl in Hchats.
  split; by apply blank_is_NaT.
Qed.

Lemma assign_dates_none (rows : list RawRow) :
  Forall (λ r : Row, timestamp r = None ∧ session_datetime r = None)
    (assign_dates rows ((λ _, None) <$> rows) ((λ _, None) <$> rows)).
Proof. induction rows as [|r rows IH]; simpl; by constructor. Qed.

(** X7. Documents without any date (no [timestamp] in a turn and no
    [datetime] in a session, or only empty or null ones) build a table as
    soon as they hold one turn, whatever [pd.to_datetime] accepts: every
    date cell is [NaT]. The report then fails at the busiest hour. *)
Theorem undated_documents_build convert all_data :
  forallb undated_document all_data = true →
  (0 < total_turn_count all_data)%nat →
  ∃ tbl, process_data convert all_data = Ok tbl
    ∧ length tbl = total_turn_count all_data
    ∧ Forall (λ r : Row, timestamp r = None ∧ session_datetime r = None) tbl
    ∧ busiest_hour tbl = Raise ValueError.
Proof.
  intros Hall Hturns.
  assert (Hwf : forallb wf_document all_data = true).
  { rewrite forallb_forall in *. intros d Hd.
    by apply undated_document_wf, Hall. }
  pose proof (flatten_total _ Hwf) as Hflat.
  pose proof (flat_records_length _ Hwf) as Hlen.
  set (rows := flat_records all_data) in *.
  assert (Hts : to_datetime convert (timestamp <$> rows)
                = Ok ((λ _, None) <$> rows)).
  { unfold to_datetime. rewrite traverse_fmap. apply traverse_total.
    intros r Hr. by apply (undated_rows convert _ [] all_data r). }
  assert (Hsd : to_datetime convert (session_datetime <$> rows)
                = Ok ((λ _, None) <$> rows)).
  { unfold to_datetime. rewrite traverse_fmap. apply traverse_total.
    intros r Hr. by apply (undated_rows convert [] _ all_data r). }
  exists (assign_dates rows ((λ _, None) <$> rows) ((λ _, None) <$> rows)).
  pose proof (assign_dates_none rows) as Hnone.
  repeat split.
  - unfold process_data. rewrite Hflat.
    destruct rows as [|r rows']; [simpl in Hlen; lia|].
    cbn [mbind result_bind].
    rewrite getitem_timestamp, getitem_session_datetime.
    cbn [mbind result_bind]. by rewrite Hts, Hsd.
  - rewrite assign_dates_length; by rewrite ?length_fmap.
  - done.
  - apply busiest_hour_no_timestamp.
    eapply Forall_impl; [exact Hnone|]. by intros r [? _].
Qed.

(** The undated file: two rows, no hour to report. *)
Lemma undated_documents_build_witness :
  ∃ tbl, process_data iso_convert [undated_file; JDict ∅] = Ok tbl
    ∧ length tbl = total_turn_count [undated_file; JDict ∅]
    ∧ Forall (λ r : Row, timestamp r = None ∧ session_datetime r = None) tbl
    ∧ busiest_hour tbl = Raise ValueError.
Proof.
  apply (undated_documents_build iso_convert [undated_file; JDict ∅]).
  - reflexivity.
  - vm_compute. lia.
Defined.

Lemma elem_of_assign_dates rows ts sd (r : Row) :
  r ∈ assign_dates rows ts sd →
  ∃ raw t s, raw ∈ rows ∧ r = with_dates raw t s.
Proof.
  revert ts sd. induction rows as [|raw rows IH]; intros [|t ts] [|s sd];
    simpl; try (by intros ?%not_elem_of_nil).
  intros [->|Hin]%elem_of_cons.
  - exists raw, t, s. split; [left|done].
  - destruct (IH _ _ Hin) as (raw' & t' & s' & Hraw & ->).
    exists raw', t', s'. split; [by right|done].
Qed.

(** X8. From the directory to the table: every row of the table built from
    what a fresh analyzer loaded carries, as its source file, the name of a
    directory entry that ends in [.json]. *)
Theorem table_rows_name_loaded_files convert directory tbl (r : Row) :
  process_data convert (all_data (load_json_files directory init)) = Ok tbl →
  r ∈ tbl →
  ∃ name, source_file r = JStr name ∧ endswith name ".json" = true
    ∧ name ∈ directory.*1.
Proof.
  intros (r0 & rows & ts & sd & Hflat & _ & _ & ->)%process_data_ok Hr.
  apply elem_of_assign_dates in Hr as (raw & t & s & Hraw & ->).
  rewrite (flatten_sound _ _ Hflat) in Hraw.
  apply turn_of_flat_records in Hraw as (dm & sm & tm & (Hd & _) & ->).
  apply loaded_document in Hd as (name & m & Hin & Hname & [= ->]).
  exists name. simpl. rewrite lookup_insert_eq. repeat split; [done|].
  apply list_elem_of_fmap. by exists (name, Ok (JDict m)).
Qed.

(** The first row of the scenario table names [chat.json]. *)
Lemma table_rows_name_loaded_files_witness :
  ∃ name, source_file scenario_first_row = JStr name
    ∧ endswith name ".json" = true
    ∧ name ∈ scenario_directory.*1.
Proof.
  apply (table_rows_name_loaded_files iso_convert scenario_directory
           scenario_table scenario_first_row).
  - vm_compute. reflexivity.
  - vm_compute. left.
Defined.

(** ** Counting words *)

Lemma counter_add_keys word counter :
  (counter_add word counter).*1
  = if decide (word ∈ counter.*1) then counter.*1 else counter.*1 ++ [word].
Proof.
  induction counter as [|[w n] counter IH]; [done|]. cbn [counter_add].
  destruct (String.eqb_spec w word) as [->|Hne]; rewrite !fmap_cons; cbn [fst].
  - rewrite decide_True by left. done.
  - rewrite IH. destruct (decide (word ∈ counter.*1)) as [Hin|Hout].
    + rewrite decide_True by (by right). done.
    + rewrite decide_False; [done|]. intros [->|?]%elem_of_cons; done.
Qed.

Lemma counter_add_get word w counter :
  counter_get w (counter_add word counter)
  = (counter_get w counter + (if decide (word = w) then 1 else 0))%nat.
Proof.
  induction counter as [|[v n] counter IH]; simpl.
  - destruct (String.eqb_spec word w); case_decide; done.
  - destruct (String.eqb_spec v word) as [->|Hne]; simpl.
    + destruct (String.eqb_spec word w); case_decide; try done; lia.
    + destruct (String.eqb_spec v w) as [->|Hne'].
      * rewrite decide_False by done. lia.
      * apply IH.
Qed.

Lemma counter_get_elem w n counter :
  NoDup counter.*1 → (w, n) ∈ counter → counter_get w counter = n.
Proof.
  induction counter as [|[v m] counter IH]; simpl.
  - by intros _ ?%not_elem_of_nil.
  - intros [Hout Hnd]%NoDup_cons [[= -> ->]|Hin]%elem_of_cons.
    + by rewrite String.eqb_refl.
    + destruct (String.eqb_spec v w) as [->|_]; [|by apply IH].
      destruct Hout. apply list_elem_of_fmap. by exists (w, n).
Qed.

Lemma counter_get_key w counter :
  w ∈ counter.*1 → (w, counter_get w counter) ∈ counter.
Proof.
  induction counter as [|[v m] counter IH]; simpl.
  - by intros ?%not_elem_of_nil.
  - destruct (String.eqb_spec v w) as [->|Hne]; [left|].
    intros [?|Hin]%elem_of_cons; [done|]. right. by apply IH.
Qed.

Lemma counter_get_absent w counter :
  w ∉ counter.*1 → counter_get w counter = 0%nat.
Proof.
  induction counter as [|[v m] counter IH]; simpl; [done|].
  intros Hout. destruct (String.eqb_spec v w) as [->|Hne].
  - destruct Hout. left.
  - apply IH. intros Hin. apply Hout. by right.
Qed.

Lemma occurrences_cons w v words :
  occurrences w (v :: words)
  = ((if decide (v = w) then 1 else 0) + occurrences w words)%nat.
Proof.
  unfold occurrences. rewrite filter_cons. by destruct (decide (v = w)).
Qed.

Lemma occurrences_elem w words : w ∈ words ↔ (0 < occurrences w words)%nat.
Proof.
  unfold occurrences. split.
  - intros Hin.
    assert (w ∈ filter (λ v, v = w) words) as Hf
      by (by apply list_elem_of_filter).
    destruct (filter _ words); [by apply not_elem_of_nil in Hf|simpl; lia].
  - destruct (filter _ words) as [|v l] eqn:Hf; simpl; [lia|]. intros _.
    assert (v ∈ filter (λ v, v = w) words) as Hv by (rewrite Hf; left).
    by apply list_elem_of_filter in Hv as [-> ?].
Qed.

(** The counter after some more words. *)
Lemma counter_fold words counter :
  NoDup counter.*1 →
  Forall (λ e, 0 < e.2)%nat counter →
  let counter' := foldl (λ c w, counter_add w c) counter words in
  NoDup counter'.*1
  ∧ (∀ w, counter_get w counter'
          = (counter_get w counter + occurrences w words)%nat)
  ∧ (∀ w, w ∈ counter'.*1 ↔ w ∈ counter.*1 ∨ w ∈ words).
Proof.
  revert counter. induction words as [|v words IH]; intros counter Hnd Hpos; simpl.
  - split; [done|]. split; [intros w; unfold occurrences; simpl; lia|].
    intros w. split; [auto|]. intros [?|?%not_elem_of_nil]; done.
  - assert (Hnd' : NoDup (counter_add v counter).*1).
    { rewrite counter_add_keys. case_decide; [done|].
      apply NoDup_app. split; [done|]. split; [|apply NoDup_singleton].
      by intros w Hw ->%list_elem_of_singleton. }
    assert (Hpos' : Forall (λ e, 0 < e.2)%nat (counter_add v counter)).
    { clear -Hpos. induction Hpos as [|[w n] c Hn Hc IHc]; simpl.
      - constructor; [simpl; lia|constructor].
      - destruct (String.eqb w v); constructor; simpl in *; try done; lia. }
    destruct (IH _ Hnd' Hpos') as (Hnd'' & Hget & Hkeys).
    split; [done|]. split.
    + intros w. rewrite Hget, counter_add_get, occurrences_cons. lia.
    + intros w. rewrite Hkeys, counter_add_keys, elem_of_cons.
      case_decide as Hv.
      * split; [tauto|]. intros [?|[->|?]]; auto.
      * rewrite elem_of_app, list_elem_of_singleton. tauto.
Qed.

Lemma Counter_get words w :
  counter_get w (Counter words) = occurrences w words.
Proof.
  destruct (counter_fold words []) as (_ & Hget & _);
    [constructor|constructor|]. apply Hget.
Qed.

Lemma Counter_NoDup words : NoDup (Counter words).*1.
Proof.
  by destruct (counter_fold words []) as (? & _ & _); [constructor|constructor|].
Qed.

Lemma Counter_elem words w n :
  (w, n) ∈ Counter words ↔ n = occurrences w words ∧ (0 < n)%nat.
Proof.
  destruct (counter_fold words []) as (Hnd & Hget & Hkeys);
    [constructor|constructor|]. fold (Counter words) in *. split.
  - intros Hin. rewrite <- (counter_get_elem _ _ _ Hnd Hin), Hget. simpl.
    split; [done|]. apply occurrences_elem.
    assert (w ∈ (Counter words).*1) as Hw
      by (apply list_elem_of_fmap; by exists (w, n)).
    apply Hkeys in Hw as [?%not_elem_of_nil|?]; done.
  - intros [-> Hpos]. rewrite <- Counter_get. apply counter_get_key, Hkeys.
    right. by apply occurrences_elem.
Qed.

Lemma Counter_keys_fold words (counter : list (string * nat)) :
  (foldl (λ c w, counter_add w c) counter words).*1
  = foldl (λ seen w, if decide (w ∈ seen) then seen else seen ++ [w])
      counter.*1 words.
Proof.
  revert counter. induction words as [|v words IH]; intros counter; simpl; [done|].
  by rewrite IH, counter_add_keys.
Qed.

(** ** Ranking the counts *)

Lemma insert_by_count_perm e sorted : insert_by_count e sorted ≡ₚ e :: sorted.
Proof.
  induction sorted as [|e' sorted IH]; simpl; [done|].
  destruct (e.2 <? e'.2)%nat; [|done]. by rewrite IH, Permutation_swap.
Qed.

Lemma ranking_perm counter : ranking counter ≡ₚ counter.
Proof.
  induction counter as [|e counter IH]; simpl; [done|].
  by rewrite insert_by_count_perm, IH.
Qed.

Lemma insert_by_count_sorted e sorted :
  StronglySorted by_count sorted →
  StronglySorted by_count (insert_by_count e sorted).
Proof.
  induction 1 as [|e' sorted Hsorted IH Hall]; simpl.
  - by repeat constructor.
  - destruct (Nat.ltb_spec e.2 e'.2) as [Hlt|Hge].
    + constructor; [done|]. rewrite insert_by_count_perm.
      constructor; [unfold by_count; lia|done].
    + constructor; [by constructor|]. constructor; [done|].
      eapply Forall_impl; [exact Hall|]. unfold by_count. intros x. lia.
Qed.

Lemma ranking_sorted counter : StronglySorted by_count (ranking counter).
Proof.
  induction counter as [|e counter IH]; simpl; [constructor|].
  by apply insert_by_count_sorted.
Qed.

Lemma insert_by_count_stable n e sorted :
  with_count n (insert_by_count e sorted)
  = if decide (e.2 = n) then e :: with_count n sorted else with_count n sorted.
Proof.
  unfold with_count.
  induction sorted as [|e' sorted IH]; simpl.
  - rewrite filter_cons. by case_decide.
  - destruct (Nat.ltb_spec e.2 e'.2) as [Hlt|Hge].
    + rewrite !filter_cons, IH. repeat case_decide; try done; lia.
    + by rewrite (filter_cons _ e).
Qed.

Lemma ranking_stable n counter :
  with_count n (ranking counter) = with_count n counter.
Proof.
  induction counter as [|e counter IH]; simpl; [done|].
  rewrite insert_by_count_stable, IH. unfold with_count at 3.
  rewrite filter_cons. by case_decide.
Qed.

Lemma filter_take_prefix {A : Type} (P : A → Prop) `{!∀ x, Decision (P x)}
    k (l : list A) :
  filter P (take k l) `prefix_of` filter P l.
Proof.
  rewrite <- (take_drop k l) at 2. rewrite filter_app. by eexists.
Qed.

(** What [most_common k] returns, for any counter. *)
Lemma most_common_spec k counter :
  let top := most_common k counter in
  length top = (k `min` length counter)%nat
  ∧ (∀ e, e ∈ top → e ∈ counter)
  ∧ StronglySorted by_count top
  ∧ (∀ e e', e ∈ counter → e ∉ top → e' ∈ top → (e.2 ≤ e'.2)%nat)
  ∧ (NoDup counter.*1 → NoDup top.*1)
  ∧ (∀ n, with_count n top `prefix_of` with_count n counter).
Proof.
  unfold most_common. pose proof (ranking_perm counter) as Hperm.
  pose proof (ranking_sorted counter) as Hsorted.
  rewrite <- (take_drop k (ranking counter)) in Hsorted.
  apply StronglySorted_app in Hsorted as (Hle & Htake & _).
  repeat split.
  - by rewrite length_take, Hperm.
  - intros e Hin.
    rewrite <- Hperm, <- (take_drop k (ranking counter)), elem_of_app. by left.
  - done.
  - intros e e' He Hout He'. apply (Hle e' e He').
    rewrite <- Hperm, <- (take_drop k (ranking counter)), elem_of_app in He.
    by destruct He.
  - intros Hnd. rewrite <- Hperm in Hnd.
    rewrite <- (take_drop k (ranking counter)), fmap_app in Hnd.
    by apply NoDup_app in Hnd as [? _].
  - intros n. rewrite <- (ranking_stable n counter). apply filter_take_prefix.
Qed.

Lemma filter_keys {A B : Type} (P : A * B → Prop) (Q : A → Prop)
    `{!∀ x, Decision (P x)} `{!∀ x, Decision (Q x)} (l : list (A * B)) :
  Forall (λ e, P e ↔ Q e.1) l → (filter P l).*1 = filter Q l.*1.
Proof.
  induction 1 as [|e l He _ IH]; [done|].
  rewrite fmap_cons, !filter_cons.
  destruct (decide (P e)), (decide (Q e.1)); try tauto; by rewrite ?fmap_cons, IH.
Qed.

Lemma Counter_keys words : (Counter words).*1 = first_seen words.
Proof. apply (Counter_keys_fold words []). Qed.

Lemma with_count_Counter n words :
  (with_count n (Counter words)).*1
  = filter (λ w, occurrences w words = n) (first_seen words).
Proof.
  unfold with_count. rewrite <- Counter_keys.
  apply filter_keys, Forall_forall. intros [w m] Hin. simpl.
  apply Counter_elem in Hin as [-> _]. done.
Qed.

Lemma prefix_of_fmap {A B : Type} (f : A → B) (l1 l2 : list A) :
  l1 `prefix_of` l2 → f <$> l1 `prefix_of` f <$> l2.
Proof. intros [k ->]. rewrite fmap_app. by eexists. Qed.

(** ** The common-words chart *)

Lemma counter_pop_filter word (counter : list (string * nat)) :
  counter_pop word counter = filter (λ e : string * nat, e.1 ≠ word) counter.
Proof.
  unfold counter_pop.
  induction counter as [|[w n] counter IH]; [done|]. simpl.
  rewrite filter_cons, IH. simpl.
  destruct (String.eqb_spec w word); case_decide; done.
Qed.

Lemma counter_pop_fold stops (counter : list (string * nat)) :
  foldl (λ freq w, counter_pop w freq) counter stops
  = filter (λ e : string * nat, e.1 ∉ stops) counter.
Proof.
  revert counter. induction stops as [|w stops IH]; intros counter; simpl.
  - induction counter as [|e counter IHc]; [done|].
    rewrite filter_cons, decide_True by apply not_elem_of_nil. by f_equal.
  - rewrite IH, counter_pop_filter. clear IH.
    induction counter as [|e counter IHc]; [done|].
    rewrite !filter_cons.
    destruct (decide (e.1 ≠ w)) as [Hne|Heq].
    + rewrite filter_cons, IHc.
      destruct (decide (e.1 ∉ stops)) as [Hout|Hin].
      * rewrite decide_True; [done|]. rewrite not_elem_of_cons. done.
      * rewrite decide_False; [done|]. rewrite not_elem_of_cons. tauto.
    + rewrite IHc, decide_False; [done|]. rewrite not_elem_of_cons.
      destruct (decide (e.1 = w)); tauto.
Qed.

Lemma NoDup_filter_keys {A B : Type} (P : A * B → Prop)
    `{!∀ x, Decision (P x)} (l : list (A * B)) :
  NoDup l.*1 → NoDup (filter P l).*1.
Proof.
  induction l as [|e l IH]; [done|]. rewrite fmap_cons, filter_cons.
  intros [Hout Hnd]%NoDup_cons. destruct (decide (P e)); [|by apply IH].
  rewrite fmap_cons. apply NoDup_cons. split; [|by apply IH].
  intros (e' & He' & [_ Hin]%list_elem_of_filter)%list_elem_of_fmap.
  apply Hout, list_elem_of_fmap. by exists e'.
Qed.


(** ** The words of the prompts *)

Lemma chars_app s1 s2 : chars (s1 +:+ s2) = chars s1 ++ chars s2.
Proof. induction s1 as [|c s1 IH]; simpl; [done|]. by rewrite IH. Qed.

Lemma chars_lower text : chars (lower text) = lower_char <$> chars text.
Proof. apply String.list_ascii_of_string_of_list_ascii. Qed.

Lemma lower_char_not_upper c : is_upper (lower_char c) = false.
Proof.
  unfold lower_char. destruct (is_upper c) eqn:Hup; [|done].
  unfold is_upper in *. apply andb_prop in Hup as [Hlo Hhi].
  apply Nat.leb_le in Hlo, Hhi.
  rewrite nat_ascii_embedding by lia.
  apply andb_false_intro2, Nat.leb_gt. lia.
Qed.

Lemma flush_spec (P : ascii → Prop) current w :
  Forall P current → w ∈ flush current → w ≠ "" ∧ Forall P (chars w).
Proof.
  destruct current as [|c current]; [by intros _ ?%not_elem_of_nil|].
  remember (c :: current) as run eqn:Hrun.
  assert (flush run = [String.string_of_list_ascii (rev run)]) as ->
    by (by rewrite Hrun).
  intros Hall ->%list_elem_of_singleton. unfold chars.
  rewrite String.list_ascii_of_string_of_list_ascii. split.
  - intros Heq. apply (f_equal String.list_ascii_of_string) in Heq.
    rewrite String.list_ascii_of_string_of_list_ascii in Heq.
    apply (f_equal (@length ascii)) in Heq.
    rewrite length_rev, Hrun in Heq. discriminate.
  - rewrite Forall_forall in *. intros x Hx. apply Hall.
    apply list_elem_of_In, List.in_rev. by apply list_elem_of_In.
Qed.

Lemma word_runs_spec (P : ascii → Prop) text current w :
  Forall P text →
  Forall (λ c, P c ∧ is_word_char c = true) current →
  w ∈ word_runs text current →
  w ≠ "" ∧ Forall (λ c, P c ∧ is_word_char c = true) (chars w).
Proof.
  intros Htext. revert current.
  induction Htext as [|c text Hc _ IH]; intros current Hcur; simpl.
  - by apply flush_spec.
  - destruct (is_word_char c) eqn:Hword.
    + apply IH. by constructor.
    + intros [Hin|Hin]%elem_of_app; [by apply (flush_spec _ current)|].
      apply (IH []); [constructor|done].
Qed.

Lemma word_runs_separator text1 c text2 current :
  is_word_char c = false →
  word_runs (text1 ++ c :: text2) current
  = word_runs text1 current ++ word_runs text2 [].
Proof.
  intros Hc. revert current.
  induction text1 as [|x text1 IH]; intros current; simpl.
  - by rewrite Hc.
  - destruct (is_word_char x); [apply IH|]. by rewrite IH, app_assoc.
Qed.

Lemma findall_words_lower text :
  findall_words (lower text) = word_runs (lower_char <$> chars text) [].
Proof. unfold findall_words. fold (chars (lower text)). by rewrite chars_lower. Qed.

Lemma findall_words_join (texts : list string) :
  findall_words (lower (String.concat " " texts))
  = texts ≫= (λ text, findall_words (lower text)).
Proof.
  induction texts as [|text texts IH]; [done|].
  destruct texts as [|text' texts].
  - simpl. by rewrite app_nil_r.
  - rewrite bind_cons, <- IH, !findall_words_lower.
    change (String.concat " " (text :: text' :: texts))
      with (text +:+ " " +:+ String.concat " " (text' :: texts)).
    rewrite !chars_app, fmap_app. simpl.
    by apply word_runs_separator.
Qed.

(** The character classes of the program are those of the rule. *)
Lemma is_word_char_spec c : is_word_char c = word_char c.
Proof. by destruct c as [[] [] [] [] [] [] [] []]. Qed.

Lemma lower_char_spec c : lower_char c = to_lower c.
Proof. by destruct c as [[] [] [] [] [] [] [] []]. Qed.

Lemma word_char_to_lower c : word_char (to_lower c) = word_char c.
Proof. by destruct c as [[] [] [] [] [] [] [] []]. Qed.

Lemma begins_word_runs text : begins_word text = true → runs text ≠ [].
Proof.
  destruct text as [|c text]; [done|]. simpl. intros ->.
  destruct (runs text); [done|]. by destruct (begins_word text).
Qed.

(** The run being read, joined to the runs of the rest of the text. *)
Lemma word_runs_runs text current :
  let lowered : list (list ascii) :=
    (λ w : list ascii, to_lower <$> w) <$> runs text in
  word_runs (to_lower <$> text) current
  = String.string_of_list_ascii <$>
      (if begins_word text then
         match lowered with
         | w :: ws => (rev current ++ w) :: ws
         | [] => []
         end
       else
         match current with
         | [] => lowered
         | _ :: _ => rev current :: lowered
         end).
Proof.
  revert current. induction text as [|c text IH]; intros current.
  - simpl. by destruct current.
  - cbv zeta in *. cbn [fmap list_fmap word_runs begins_word runs].
    rewrite is_word_char_spec, word_char_to_lower.
    destruct (word_char c) eqn:Hc.
    + rewrite IH. destruct (begins_word text) eqn:Hnext.
      * pose proof (begins_word_runs _ Hnext) as Hruns.
        destruct (runs text) as [|w ws]; [done|].
        cbn [fmap list_fmap rev]. by rewrite <- ?app_assoc.
      * cbn [rev]. destruct (runs text) as [|w ws]; cbn [fmap list_fmap];
          by rewrite <- ?app_assoc.
    + rewrite IH. destruct (begins_word text) eqn:Hnext.
      * pose proof (begins_word_runs _ Hnext) as Hruns.
        destruct (runs text) as [|w ws]; [done|].
        cbn [fmap list_fmap rev app]. by destruct current.
      * by destruct current.
Qed.

(** The tokenizer of the program finds the words of the rule. *)
Lemma findall_words_spec text : findall_words (lower text) = words_of text.
Proof.
  rewrite findall_words_lower.
  rewrite (list_fmap_ext lower_char to_lower (chars text))
    by (intros; apply lower_char_spec).
  rewrite word_runs_runs. unfold words_of. cbv zeta.
  transitivity (String.string_of_list_ascii <$>
                  ((λ w : list ascii, to_lower <$> w) <$> runs (chars text))).
  - destruct (begins_word (chars text)); [|done].
    by destruct (runs (chars text)).
  - by rewrite <- list_fmap_compose.
Qed.

(** On prompts that are strings, the joined text exists whatever
    [astype(str)] does to other cells, and its words are the words of the
    prompts, one prompt after the other. *)
Lemma all_text_prompts str_of_cell rows :
  Forall (λ r, ascii_prompt r = true) rows →
  ∃ text, all_text str_of_cell rows = Ok text
    ∧ findall_words (lower text) = prompt_words rows.
Proof.
  intros Hall. unfold all_text. cbv zeta. rewrite traverse_fmap.
  rewrite (traverse_total _
    (λ r : Row, default "" (cell_text (input_prompt r)))).
  2:{ intros r Hr. rewrite Forall_forall in Hall. specialize (Hall r Hr).
      unfold ascii_prompt in Hall. simpl.
      by destruct (input_prompt r). }
  eexists. split; [done|]. rewrite findall_words_join. unfold prompt_words.
  induction Hall as [|r rows Hr _ IH]; [done|].
  rewrite fmap_cons, !bind_cons, IH. f_equal.
  unfold ascii_prompt in Hr. destruct (input_prompt r); try done.
  apply findall_words_spec.
Qed.

Lemma is_upper_spec c : is_upper c = bool_decide (c ∈ chars upper_case).
Proof. by destruct c as [[] [] [] [] [] [] [] []]. Qed.

(** X11. On prompts of ASCII text, every word the chart and the report
    count is a non-empty run of letters, digits and underscores without an
    upper-case letter: "The" and "the" are one word, and punctuation and
    blanks are in no word. *)
Theorem prompt_words_are_lowercase_words str_of_cell rows text w :
  Forall (λ r, ascii_prompt r = true) rows →
  all_text str_of_cell rows = Ok text →
  w ∈ findall_words (lower text) →
  w ≠ ""
  ∧ Forall (λ c, word_char c = true ∧ c ∉ chars upper_case) (chars w).
Proof.
  intros _ _. unfold findall_words. fold (chars (lower text)).
  rewrite chars_lower. intros Hw.
  apply (word_runs_spec (λ c, is_upper c = false)) in Hw as [Hne Hall];
    [|apply Forall_fmap, Forall_true; intros c; apply lower_char_not_upper
     |constructor].
  split; [done|]. eapply Forall_impl; [exact Hall|].
  intros c [Hup Hword]. rewrite <- is_word_char_spec. split; [done|].
  rewrite is_upper_spec in Hup. by apply bool_decide_eq_false in Hup.
Qed.

(** The words of "Hello, World_1!" *)
Lemma prompt_words_are_lowercase_words_witness :
  "world_1" ≠ ""
  ∧ Forall (λ c, word_char c = true ∧ c ∉ chars upper_case) (chars "world_1").
Proof.
  apply (prompt_words_are_lowercase_words (λ _ _, None)
           (prompt_rows ["Hello, World_1!"]) "Hello, World_1!" "world_1").
  - forall_rows.
  - reflexivity.
  - vm_compute. right. left.
Defined.

(** X12. On prompts of ASCII text, joining the prompts with blanks neither
    merges nor splits words: the joined text exists, and its words are the
    words of the first prompt, then those of the second, and so on. *)
Theorem words_of_joined_prompts str_of_cell rows :
  Forall (λ r, ascii_prompt r = true) rows →
  ∃ text, all_text str_of_cell rows = Ok text
    ∧ findall_words (lower text) = prompt_words rows.
Proof. apply all_text_prompts. Qed.

(** Two prompts; the second begins where the first ends. *)
Lemma words_of_joined_prompts_witness :
  ∃ text, all_text (λ _ _, None) (prompt_rows ["so far"; "so good"]) = Ok text
    ∧ findall_words (lower text) = prompt_words (prompt_rows ["so far"; "so good"]).
Proof. apply words_of_joined_prompts. forall_rows. Defined.

Lemma blank_prompt_ascii (r : Row) :
  input_prompt r = JStr "" → ascii_prompt r = true.
Proof. unfold ascii_prompt. by intros ->. Qed.

(** X13. When every turn of the file has the empty prompt (the sentinel for
    a missing [input_prompt]), or the table has no row of the file at all,
    the common-words chart has nothing to unpack and raises [ValueError]. *)
Theorem blank_prompts_raise str_of_cell tbl source_file_name :
  Forall (λ r : Row, input_prompt r = JStr "") (file_rows tbl source_file_name) →
  common_words str_of_cell tbl source_file_name = Raise ValueError.
Proof.
  intros Hall. unfold common_words, chart_word_freq.
  destruct (all_text_prompts str_of_cell (file_rows tbl source_file_name))
    as (text & -> & Hwords).
  { eapply Forall_impl; [exact Hall|]. apply blank_prompt_ascii. }
  cbn [mbind result_bind]. rewrite Hwords.
  unfold prompt_words. rewrite bind_all_nil; [done|].
  intros r Hr. rewrite Forall_forall in Hall. by rewrite (Hall r Hr).
Qed.

(** Two turns without a prompt, and a file the table does not know. *)
Lemma blank_prompts_raise_witness :
  common_words (λ _ _, Some "x") (prompt_rows [""; ""]) "chat.json"
  = Raise ValueError.
Proof.
  apply blank_prompts_raise. vm_compute. repeat constructor.
Defined.

(** ** The top words of the report and the bars of the common-words chart *)

(** X9. On prompts of ASCII text, the report's top topics really are the
    top five words of the prompts: at most five entries, five when the
    prompts hold five distinct words, no word twice, counts never
    increasing down the list, each count the number of occurrences of its
    word in the prompts, no word left out that occurs more often than one
    listed, and words of equal count in the order of their first
    occurrence. *)
Theorem top_topics_are_the_top_five str_of_cell tbl :
  Forall (λ r, ascii_prompt r = true) tbl →
  let words := prompt_words tbl in
  ∃ top, top_topics str_of_cell tbl = Ok top
    ∧ length top = (5 `min` length (first_seen words))%nat
    ∧ NoDup top.*1
    ∧ StronglySorted by_count top
    ∧ (∀ w n, (w, n) ∈ top → n = occurrences w words ∧ (0 < n)%nat)
    ∧ (∀ w e, w ∈ words → w ∉ top.*1 → e ∈ top →
              (occurrences w words ≤ e.2)%nat)
    ∧ (∀ n, (with_count n top).*1
            `prefix_of` filter (λ w, occurrences w words = n) (first_seen words)).
Proof.
  intros Hascii words. unfold top_topics.
  destruct (all_text_prompts str_of_cell tbl Hascii) as (text & -> & Hwords).
  cbn [mbind result_bind]. rewrite Hwords. fold words.
  destruct (most_common_spec 5 (Counter words))
    as (Hlen & Hsub & Hsorted & Htop & Hnd & Hstable).
  exists (most_common 5 (Counter words)). split; [done|].
  set (top := most_common 5 (Counter words)) in *.
  split_and!.
  - by rewrite Hlen, <- Counter_keys, length_fmap.
  - apply Hnd, Counter_NoDup.
  - done.
  - intros w n Hin. by apply Counter_elem, Hsub.
  - intros w e Hw Hout He.
    apply (Htop (w, occurrences w words) e); [|  |done].
    + apply Counter_elem. split; [done|]. by apply occurrences_elem.
    + intros Hin. apply Hout, list_elem_of_fmap. by eexists (_, _).
  - intros n. rewrite <- with_count_Counter. apply prefix_of_fmap, Hstable.
Qed.

(** Three prompts with six distinct words. *)
Lemma top_topics_are_the_top_five_witness :
  let words := prompt_words
                 (prompt_rows ["is it a cat"; "It is a dog"; "a Cat or a dog?"]) in
  ∃ top, top_topics (λ _ _, None)
           (prompt_rows ["is it a cat"; "It is a dog"; "a Cat or a dog?"]) = Ok top
    ∧ length top = (5 `min` length (first_seen words))%nat
    ∧ NoDup top.*1
    ∧ StronglySorted by_count top
    ∧ (∀ w n, (w, n) ∈ top → n = occurrences w words ∧ (0 < n)%nat)
    ∧ (∀ w e, w ∈ words → w ∉ top.*1 → e ∈ top →
              (occurrences w words ≤ e.2)%nat)
    ∧ (∀ n, (with_count n top).*1
            `prefix_of` filter (λ w, occurrences w words = n) (first_seen words)).
Proof.
  apply top_topics_are_the_top_five. forall_rows.
Defined.

Lemma filter_stop_words_elem words w n :
  (w, n) ∈ foldl (λ freq w, counter_pop w freq) (Counter words) stop_words ↔
  (w ∉ stop_words) ∧ n = occurrences w words ∧ (0 < n)%nat.
Proof. rewrite counter_pop_fold, list_elem_of_filter, Counter_elem. done. Qed.

(** X10. On a file whose prompts are ASCII text, the bars of the
    common-words chart: between one and twenty words, none of them a stop
    word and none twice, each with the number of its occurrences in the
    prompts of the rows of the table that carry the source file, counts
    never increasing, and no other word that is not a stop word occurring
    more often than a listed one. When every word of those prompts is a
    stop word (or there is no word), unpacking the empty list raises
    [ValueError]. *)
Theorem common_words_spec str_of_cell tbl source_file_name :
  Forall (λ r, ascii_prompt r = true) (rows_of_file tbl source_file_name) →
  let words := prompt_words (rows_of_file tbl source_file_name) in
  match common_words str_of_cell tbl source_file_name with
  | Ok (ws, cs) =>
      length cs = length ws
      ∧ (0 < length ws)%nat ∧ (length ws ≤ 20)%nat
      ∧ NoDup ws
      ∧ StronglySorted ge cs
      ∧ (∀ w n, (w, n) ∈ zip ws cs →
           (w ∉ stop_words) ∧ n = occurrences w words ∧ (0 < n)%nat)
      ∧ (∀ w n, w ∈ words → w ∉ stop_words → w ∉ ws → n ∈ cs →
           (occurrences w words ≤ n)%nat)
  | Raise e => e = ValueError ∧ Forall (λ w, w ∈ stop_words) words
  end.
Proof.
  intros Hascii words. unfold common_words, chart_word_freq.
  rewrite file_rows_spec.
  destruct (all_text_prompts str_of_cell _ Hascii) as (text & -> & Hwords).
  cbn [mbind result_bind]. rewrite Hwords. fold words.
  set (freq := foldl (λ freq w, counter_pop w freq) (Counter words) stop_words).
  destruct (most_common_spec 20 freq)
    as (Hlen & Hsub & Hsorted & Htop & Hnd & _).
  assert (Hfreq : ∀ w n, (w, n) ∈ freq ↔
            (w ∉ stop_words) ∧ n = occurrences w words ∧ (0 < n)%nat)
    by apply filter_stop_words_elem.
  destruct (most_common 20 freq) as [|e common] eqn:Hcommon.
  - split; [done|]. apply Forall_forall. intros w Hw.
    destruct (decide (w ∈ stop_words)) as [|Hout]; [done|]. exfalso.
    assert ((w, occurrences w words) ∈ freq) as Hin.
    { apply Hfreq. repeat split; [done|]. by apply occurrences_elem. }
    destruct freq; [by apply not_elem_of_nil in Hin|]. simpl in Hlen. lia.
  - set (top := e :: common) in *. split_and!.
    + by rewrite !length_fmap.
    + rewrite length_fmap. simpl. lia.
    + rewrite length_fmap, Hlen. lia.
    + apply Hnd. unfold freq. rewrite counter_pop_fold.
      apply NoDup_filter_keys, Counter_NoDup.
    + clear -Hsorted. induction Hsorted as [|x l _ IH Hall]; [constructor|].
      rewrite fmap_cons. constructor; [done|].
      apply Forall_fmap. eapply Forall_impl; [exact Hall|].
      unfold by_count. intros y. simpl. lia.
    + intros w n Hin. rewrite zip_fst_snd in Hin. by apply Hfreq, Hsub.
    + intros w n Hw Hstop Hout (e' & -> & He')%list_elem_of_fmap.
      apply (Htop (w, occurrences w words) e'); [| |done].
      * apply Hfreq. repeat split; [done|]. by apply occurrences_elem.
      * intros Hin. apply Hout, list_elem_of_fmap. by eexists (_, _).
Qed.

(** Two prompts of one file and one of another. *)
Lemma common_words_spec_witness :
  let words := prompt_words (rows_of_file
                 (prompt_rows ["the cat"; "The dog and the cat"]
                  ++ [with_source "b.json" (sample_row 9 "a cow" "s9" 1 1)])
                 "chat.json") in
  match common_words (λ _ _, None)
          (prompt_rows ["the cat"; "The dog and the cat"]
           ++ [with_source "b.json" (sample_row 9 "a cow" "s9" 1 1)])
          "chat.json" with
  | Ok (ws, cs) =>
      length cs = length ws
      ∧ (0 < length ws)%nat ∧ (length ws ≤ 20)%nat
      ∧ NoDup ws
      ∧ StronglySorted ge cs
      ∧ (∀ w n, (w, n) ∈ zip ws cs →
           (w ∉ stop_words) ∧ n = occurrences w words ∧ (0 < n)%nat)
      ∧ (∀ w n, w ∈ words → w ∉ stop_words → w ∉ ws → n ∈ cs →
           (occurrences w words ≤ n)%nat)
  | Raise e => e = ValueError ∧ Forall (λ w, w ∈ stop_words) words
  end.
Proof.
  apply common_words_spec. forall_rows.
Defined.

(** ** The token chart: nothing lost, nothing counted twice *)

#[local] Instance Zsum_perm : Proper ((≡ₚ) ==> (=)) Zsum.
Proof.
  induction 1 as [|x l l' _ IH|x y l|l l' l'' _ IH1 _ IH2]; simpl;
    [done|by rewrite IH|lia|congruence].
Qed.

#[local] Instance bars_total_perm {K : Type} :
  Proper ((≡ₚ) ==> (=)) (bars_total (K := K)).
Proof. intros l l' Hl. unfold bars_total. by rewrite Hl. Qed.

Lemma magnitude_filter_le (field : Row → json) (P : Row → Prop)
    `{!∀ r, Decision (P r)} (rows : Table) :
  magnitude field (filter P rows) ≤ magnitude field rows.
Proof.
  unfold magnitude. induction rows as [|r rows IH]; [done|].
  rewrite filter_cons, fmap_cons, Zsum_step.
  destruct (decide (P r)); [rewrite fmap_cons, Zsum_step|]; lia.
Qed.

Lemma total_le_magnitude (field : Row → json) (rows : Table) :
  Z.abs (Zsum ((λ r : Row, cell_value (field r)) <$> rows))
  ≤ magnitude field rows.
Proof.
  unfold magnitude.
  rewrite (list_fmap_compose (λ r : Row, cell_value (field r)) Z.abs).
  apply Zsum_abs_le.
Qed.

(** The rows of a session are rows that have a session id. *)
Lemma rows_of_session_keyed tbl name k :
  rows_of_session tbl name k
  = filter (λ r : Row, cell_key (session_id r) = Some k)
      (keyed_rows (rows_of_file tbl name)).
Proof.
  unfold rows_of_session, keyed_rows. rewrite list_filter_filter.
  apply list_filter_iff. intros r. unfold has_session_id.
  split; [|by intros [? _]]. intros Hk. split; [done|].
  by destruct (session_id r).
Qed.

Section Conservation.
Context (tbl : Table) (name : string) (field : Row → json).
Context (sums : gmap pykey (Z * Z)) (height : Z * Z → Z).
Hypothesis Hids : Forall (λ r, unhashable_id r = false) (rows_of_file tbl name).
Hypothesis Hsums : ∀ k,
  height <$> sums !! k
  = match rows_of_session tbl name k with
    | [] => None
    | rows => Some (wrap64 (Zsum ((λ r : Row, cell_value (field r)) <$> rows)))
    end.
Hypothesis Hfit : magnitude field (keyed_rows (rows_of_file tbl name)) < 2 ^ 63.

Lemma session_total_fits k :
  wrap64 (Zsum ((λ r : Row, cell_value (field r)) <$> rows_of_session tbl name k))
  = Zsum ((λ r : Row, cell_value (field r)) <$> rows_of_session tbl name k).
Proof.
  apply wrap64_small.
  pose proof (total_le_magnitude field (rows_of_session tbl name k)) as Hle.
  rewrite rows_of_session_keyed in Hle at 2.
  pose proof (magnitude_filter_le field
    (λ r : Row, cell_key (session_id r) = Some k)
    (keyed_rows (rows_of_file tbl name))). lia.
Qed.

(** Bars that are the int64 sums of their sessions add up to the sum over
    the rows that have a session id, as long as that fits in 64 bits. *)
Lemma bars_add_up :
  Zsum ((λ b, height b.2) <$> map_to_list sums)
  = Zsum ((λ r : Row, cell_value (field r))
          <$> keyed_rows (rows_of_file tbl name)).
Proof.
  set (rows := keyed_rows (rows_of_file tbl name)).
  set (w := λ r : Row, cell_value (field r)).
  rewrite <- (rows_equal_partition session_id w
                (Some <$> (map_to_list sums).*1) rows).
  - rewrite <- !list_fmap_compose. f_equal.
    apply list_fmap_ext. intros _ [k v] Hkv%list_elem_of_lookup_2.
    apply elem_of_map_to_list in Hkv. specialize (Hsums k).
    rewrite Hkv in Hsums. cbn [fmap option_fmap option_map] in Hsums.
    unfold compose. cbn [fst snd rows_equal].
    assert (filter (λ r : Row, hashable (session_id r) = Ok (Some k)) rows
            = rows_of_session tbl name k) as ->.
    { rewrite rows_of_session_keyed. apply list_filter_iff. intros r.
      apply hashable_cell_key. }
    rewrite <- session_total_fits.
    destruct (rows_of_session tbl name k); [done|].
    by injection Hsums as ->.
  - apply (NoDup_fmap_2 _), NoDup_fst_map_to_list.
  - intros r Hr.
    assert (∃ k, cell_key (session_id r) = Some k) as [k Hk].
    { apply list_elem_of_filter in Hr as [Hkeyed Hr].
      rewrite Forall_forall in Hids. specialize (Hids r Hr).
      unfold has_session_id, unhashable_id in *.
      destruct (session_id r); simpl; by eauto. }
    exists k. split; [by apply hashable_cell_key|].
    apply list_elem_of_fmap. exists k. split; [done|].
    assert (r ∈ rows_of_session tbl name k) as Hin.
    { rewrite rows_of_session_keyed. by apply list_elem_of_filter. }
    specialize (Hsums k).
    destruct (rows_of_session tbl name k); [by apply not_elem_of_nil in Hin|].
    destruct (sums !! k) as [v|] eqn:Hv; [|done].
    apply list_elem_of_fmap. exists (k, v).
    split; [done|]. by apply elem_of_map_to_list.
Qed.

End Conservation.

(** X14. The token chart loses no token and counts none twice. On a table
    whose token columns are int64 and for a file whose session ids can be
    group keys, as long as the input tokens (and the output tokens) of the
    file's rows that have a session id fit in 64 bits together, the input
    bars add up to the sum of [input_tokens] over those rows, and the
    output bars to the sum of [output_tokens]; only rows with a null
    session id are left out. *)
Theorem token_bars_conserve_totals tbl source_file_name :
  Forall (λ r, int64_tokens r = true) tbl →
  Forall (λ r, unhashable_id r = false) (rows_of_file tbl source_file_name) →
  magnitude input_tokens (keyed_rows (rows_of_file tbl source_file_name)) < 2 ^ 63 →
  magnitude output_tokens (keyed_rows (rows_of_file tbl source_file_name)) < 2 ^ 63 →
  ∃ bars, session_tokens tbl source_file_name = Ok bars
    ∧ bars_total bars
      = (input_total (keyed_rows (rows_of_file tbl source_file_name)),
         output_total (keyed_rows (rows_of_file tbl source_file_name))).
Proof.
  intros Hints Hids Hin Hout.
  destruct (session_tokens_spec _ _ Hints Hids) as (sums & -> & Hsums).
  eexists. split; [done|].
  unfold sorted_items. rewrite merge_sort_Permutation.
  unfold bars_total, input_total, output_total. f_equal.
  - apply (bars_add_up tbl source_file_name input_tokens sums fst); [done| |done].
    intros k. rewrite Hsums. unfold advance.
    by destruct (rows_of_session tbl source_file_name k).
  - apply (bars_add_up tbl source_file_name output_tokens sums snd); [done| |done].
    intros k. rewrite Hsums. unfold advance.
    by destruct (rows_of_session tbl source_file_name k).
Qed.

(** Three rows, one of them without a session id. *)
Lemma token_bars_conserve_totals_witness :
  ∃ bars,
    session_tokens
      [sample_row 9 "a" "s1" 10 20; sample_row 9 "b" "s2" 1 2;
       mkRow JNull JNull JNull None JNull (JStr "chat.json") JNull JNull None
         (JInt 100) (JInt 100) JNull] "chat.json" = Ok bars
    ∧ bars_total bars
      = (input_total (keyed_rows (rows_of_file
           [sample_row 9 "a" "s1" 10 20; sample_row 9 "b" "s2" 1 2;
            mkRow JNull JNull JNull None JNull (JStr "chat.json") JNull JNull
              None (JInt 100) (JInt 100) JNull] "chat.json")),
         output_total (keyed_rows (rows_of_file
           [sample_row 9 "a" "s1" 10 20; sample_row 9 "b" "s2" 1 2;
            mkRow JNull JNull JNull None JNull (JStr "chat.json") JNull JNull
              None (JInt 100) (JInt 100) JNull] "chat.json"))).
Proof.
  apply token_bars_conserve_totals;
    [forall_rows|forall_rows|by vm_compute|by vm_compute].
Defined.

Lemma add_tokens_raises r sums e :
  add_tokens r sums = Raise e → e = TypeError.
Proof.
  unfold add_tokens.
  destruct (session_id r) as [|b|z|s| |]; simpl; try (by intros [= <-]);
    destruct (input_tokens r) as [|bi|zi| | |], (output_tokens r) as [|bo|zo| | |];
    simpl; try done; by intros [= <-].
Qed.

Lemma for_each_add_tokens_raises rows sums r :
  r ∈ rows → unhashable_id r = true →
  for_each add_tokens rows sums = Raise TypeError.
Proof.
  intros Hin Hr. revert sums.
  induction Hin as [r rows|r r' rows Hin IH]; intros sums; simpl.
  - unfold add_tokens, unhashable_id in *. by destruct (session_id r).
  - destruct (add_tokens r' sums) as [sums'|e] eqn:Hadd; simpl; [by apply IH|].
    by rewrite (add_tokens_raises _ _ _ Hadd).
Qed.

(** X15. A session id that is a list or an object cannot be a group key: as
    soon as one row of the file has one, the token chart raises [TypeError],
    whatever the other rows hold. Rows of other files do not matter. *)
Theorem unhashable_session_id_raises tbl source_file_name r :
  r ∈ file_rows tbl source_file_name → unhashable_id r = true →
  session_tokens tbl source_file_name = Raise TypeError.
Proof.
  intros Hin Hr. unfold session_tokens.
  by rewrite (for_each_add_tokens_raises _ _ r Hin Hr).
Qed.

(** A good row followed by one whose session id is a list. *)
Lemma unhashable_session_id_raises_witness :
  session_tokens
    [sample_row 9 "a" "s1" 10 20;
     mkRow JNull JNull (JList []) None JNull (JStr "chat.json") JNull JNull None
       (JInt 1) (JInt 1) JNull] "chat.json" = Raise TypeError.
Proof.
  apply (unhashable_session_id_raises _ _
    (mkRow JNull JNull (JList []) None JNull (JStr "chat.json") JNull JNull None
       (JInt 1) (JInt 1) JNull)).
  - vm_compute. right. left.
  - reflexivity.
Defined.

(** ** The overall statistics: when they exist *)

Lemma length_omap_le {A B : Type} (f : A → option B) (l : list A) :
  (length (omap f l) ≤ length l)%nat.
Proof.
  induction l as [|x l IH]; [done|]. csimpl. destruct (f x); simpl; lia.
Qed.

Lemma length_remove_dups_le {A : Type} `{EqDecision A} (l : list A) :
  (length (remove_dups l) ≤ length l)%nat.
Proof.
  induction l as [|x l IH]; [done|]. simpl. case_decide; simpl; lia.
Qed.

Lemma not_countable_row (r : Row) :
  countable_row r = false →
  (∃ e, hashable (session_id r) = Raise e)
  ∨ (∃ e, numeric (total_tokens r) = Raise e).
Proof.
  unfold countable_row.
  destruct (session_id r), (total_tokens r); try done; simpl; eauto.
Qed.

(** X16. The overall statistics exist exactly when every session id of the
    table is hashable (no list, no object) and every [total_tokens] cell is
    a number or null; otherwise the report raises before its first figure.
    When they exist, there are never more sessions than interactions. *)
Theorem overall_statistics_returns_iff tbl :
  if forallb countable_row tbl
  then ∃ st, overall_statistics tbl = Ok st
         ∧ (total_sessions st ≤ total_interactions st)%nat
         ∧ total_interactions st = length tbl
  else ∃ e, overall_statistics tbl = Raise e.
Proof.
  destruct (forallb countable_row tbl) eqn:Hall.
  - rewrite forallb_forall in Hall.
    rewrite overall_statistics_countable.
    2:{ apply Forall_forall. intros r Hr. by apply Hall, list_elem_of_In. }
    eexists. split; [done|]. simpl. split; [|done].
    rewrite size_seen. etrans; [apply length_remove_dups_le|].
    apply length_omap_le.
  - assert (∃ r, r ∈ tbl ∧ countable_row r = false) as (r & Hr & Hbad).
    { clear -Hall. induction tbl as [|r tbl IH]; [done|]. simpl in Hall.
      apply andb_false_iff in Hall as [Hr|Htbl].
      - exists r. split; [left|done].
      - destruct (IH Htbl) as (r' & ? & ?). exists r'. split; [by right|done]. }
    unfold overall_statistics, nunique.
    destruct (traverse hashable (session_id <$> tbl)) as [keys|e] eqn:Hkeys;
      [|by exists e]. cbn [mbind result_bind].
    destruct (traverse numeric (total_tokens <$> tbl)) as [cells|e] eqn:Hcells;
      [|by exists e]. exfalso.
    apply not_countable_row in Hbad as [[e He]|[e He]].
    + destruct (traverse_raises hashable (session_id <$> tbl) (session_id r) e)
        as [e' He']; [|done|congruence].
      apply list_elem_of_fmap. by exists r.
    + destruct (traverse_raises numeric (total_tokens <$> tbl) (total_tokens r) e)
        as [e' He']; [|done|congruence].
      apply list_elem_of_fmap. by exists r.
Qed.

(** ** Distinct values *)

Section Distinct.
Context {A : Type} `{EqDecision A}.

Lemma distinct_fold (l seen : list A) :
  NoDup seen →
  let seen' := foldl (λ seen x, if decide (x ∈ seen) then seen else seen ++ [x])
                 seen l in
  NoDup seen' ∧ ∀ x, x ∈ seen' ↔ x ∈ seen ∨ x ∈ l.
Proof.
  revert seen. induction l as [|y l IH]; intros seen Hnd; simpl.
  - split; [done|]. intros x. split; [auto|]. by intros [?|?%not_elem_of_nil].
  - case_decide as Hy.
    + destruct (IH seen Hnd) as [Hnd' Hin]. split; [done|].
      intros x. rewrite Hin, elem_of_cons. split; [tauto|].
      intros [?|[->|?]]; auto.
    + destruct (IH (seen ++ [y])) as [Hnd' Hin].
      { apply NoDup_app. split; [done|]. split; [|apply NoDup_singleton].
        by intros x Hx ->%list_elem_of_singleton. }
      split; [done|]. intros x.
      rewrite Hin, elem_of_app, list_elem_of_singleton, elem_of_cons. tauto.
Qed.

Lemma NoDup_distinct (l : list A) : NoDup (distinct l).
Proof. apply (distinct_fold l []). constructor. Qed.

Lemma elem_of_distinct (l : list A) x : x ∈ distinct l ↔ x ∈ l.
Proof.
  destruct (distinct_fold l []) as [_ Hin]; [constructor|].
  unfold distinct. rewrite Hin. split; [|auto].
  by intros [?%not_elem_of_nil|?].
Qed.

End Distinct.

(** ** main *)

Lemma main_loaded convert directory d docs :
  all_data (load_json_files directory init) = d :: docs →
  main convert directory
  = match process_data convert (d :: docs) with
    | Raise e => Uncaught e
    | Ok processed_df =>
        match unique (source_file <$> processed_df) with
        | Raise e => Uncaught e
        | Ok source_files => Charts processed_df source_files
        end
    end.
Proof.
  intros Hdata. unfold main. fold (json_files directory).
  destruct (json_files directory) as [|f files] eqn:Hfiles.
  - rewrite load_json_files_data, Hfiles in Hdata. done.
  - by rewrite Hdata.
Qed.

Lemma hashable_str name : hashable (JStr name) = Ok (Some (inr name)).
Proof. done. Qed.

Lemma loaded_none files :
  omap tagged files = [] ↔ Forall (λ f, loads f = false) files.
Proof.
  induction files as [|f files IH]; [done|]. csimpl. rewrite Forall_cons, <- IH.
  destruct f as [name [[| | | | |m]|e]]; simpl; split;
    try done; try (by intros [_ ?]); by intros [? _].
Qed.

Lemma loaded_some files d docs :
  omap tagged files = d :: docs → Exists (λ f, loads f = true) files.
Proof.
  induction files as [|f files IH]; [done|]. csimpl.
  destruct (tagged f) as [d'|] eqn:Hf.
  - intros _. left. by destruct f as [name [[| | | | |m]|e]].
  - intros Hrest. right. by apply IH.
Qed.

Lemma loaded_row_source convert directory tbl (r : Row) :
  process_data convert (all_data (load_json_files directory init)) = Ok tbl →
  r ∈ tbl →
  ∃ name m, source_file r = JStr name ∧ (name, Ok (JDict m)) ∈ directory
    ∧ endswith name ".json" = true.
Proof.
  intros (r0 & rows & ts & sd & Hflat & _ & _ & ->)%process_data_ok Hr.
  apply elem_of_assign_dates in Hr as (raw & t & s & Hraw & ->).
  rewrite (flatten_sound _ _ Hflat) in Hraw.
  apply turn_of_flat_records in Hraw as (dm & sm & tm & (Hd & _) & ->).
  apply loaded_document in Hd as (name & m & Hin & Hname & [= ->]).
  exists name, m. simpl. by rewrite lookup_insert_eq.
Qed.

Lemma unique_of_strings (field : Row → json) (tbl : Table) :
  (∀ r, r ∈ tbl → ∃ name, field r = JStr name) →
  unique (field <$> tbl)
  = Ok (distinct ((λ r : Row, string_key (field r)) <$> tbl)).
Proof.
  intros Hsrc. unfold unique. rewrite traverse_fmap.
  rewrite (traverse_total _ (λ r : Row, string_key (field r))); [done|].
  intros r Hr. destruct (Hsrc r Hr) as [name Hname]. simpl. by rewrite Hname.
Qed.

(** X17. Where [main] stops. It prints "no JSON files" exactly when no entry
    of the directory ends in [.json], and "no data loaded" exactly when
    there are such entries but none holds a JSON object. In every other case
    it builds the table: an exception of [process_data] ends the run
    uncaught, and otherwise the charts are drawn once for each source file
    that has a row in the table. *)
Theorem main_stops convert directory :
  match main convert directory with
  | NoJsonFiles => json_files directory = []
  | NoDataLoaded =>
      (0 < length (json_files directory))%nat
      ∧ Forall (λ f, loads f = false) (json_files directory)
  | Uncaught e =>
      Exists (λ f, loads f = true) (json_files directory)
      ∧ process_data convert (all_data (load_json_files directory init))
        = Raise e
  | Charts tbl source_files =>
      process_data convert (all_data (load_json_files directory init)) = Ok tbl
      ∧ NoDup source_files
      ∧ (0 < length source_files)%nat
      ∧ ∀ label, label ∈ source_files ↔
          ∃ name r, label = Some (inr name) ∧ r ∈ tbl
            ∧ source_file r = JStr name
  end.
Proof.
  pose proof (load_json_files_data directory init) as Hdata.
  rewrite app_nil_l in Hdata.
  unfold main. fold (json_files directory).
  destruct (json_files directory) as [|f files] eqn:Hfiles; [done|].
  destruct (all_data (load_json_files directory init)) as [|d docs] eqn:Hdocs.
  - split; [simpl; lia|]. by apply loaded_none.
  - assert (Hex : Exists (λ f, loads f = true) (f :: files))
      by (by eapply loaded_some).
    rewrite <- Hdocs.
    destruct (process_data convert (all_data (load_json_files directory init)))
      as [tbl|e] eqn:Hrun; [|by split].
    assert (Hsrc : ∀ r, r ∈ tbl → ∃ name, source_file r = JStr name).
    { intros r Hr.
      destruct (loaded_row_source _ _ _ _ Hrun Hr) as (name & _ & ? & _).
      by exists name. }
    rewrite (unique_of_strings _ _ Hsrc).
    assert (Hlabels : ∀ label,
      label ∈ distinct ((λ r : Row, string_key (source_file r)) <$> tbl)
      ↔ ∃ name r, label = Some (inr name) ∧ r ∈ tbl ∧ source_file r = JStr name).
    { intros label. rewrite elem_of_distinct, list_elem_of_fmap. split.
      - intros (r & -> & Hr). destruct (Hsrc r Hr) as [name Hname].
        exists name, r. by rewrite Hname.
      - intros (name & r & -> & Hr & Hname). exists r. by rewrite Hname. }
    split_and!; [done|apply NoDup_distinct| |done].
    destruct (process_data_ok _ _ _ Hrun) as (r0 & rows & _ & _ & Hflat & _).
    pose proof (process_data_length _ _ _ _ Hflat Hrun) as Hlen.
    destruct tbl as [|r tbl]; [done|].
    destruct (Hsrc r) as [name Hname]; [left|].
    assert (Some (inr name) ∈ distinct
              ((λ r : Row, string_key (source_file r)) <$> r :: tbl)) as Hin.
    { apply Hlabels. exists name, r. split; [done|]. split; [left|done]. }
    destruct (distinct _); [by apply not_elem_of_nil in Hin|simpl; lia].
Qed.

Lemma flatten_nothing docs :
  Forall (λ d, document_rows d = []) docs → flat_records docs = [].
Proof. intros Hall. apply bind_all_nil. by apply Forall_forall. Qed.

(** X18. A directory whose loadable JSON files hold no chat turn at all
    (the empty object, say) passes both early exits of [main]: something was
    loaded, so the table is built from no row and the run ends in the
    uncaught [KeyError] of the timestamp column. *)
Theorem main_turnless_files_crash convert directory :
  Exists (λ f, loads f = true) (json_files directory) →
  flatten (all_data (load_json_files directory init)) = Ok [] →
  main convert directory = Uncaught (KeyError "timestamp").
Proof.
  intros Hex Hflat.
  destruct (all_data (load_json_files directory init)) as [|d docs] eqn:Hdocs.
  - exfalso. rewrite load_json_files_data in Hdocs. simpl in Hdocs.
    apply loaded_none in Hdocs. apply Exists_exists in Hex as (f & Hf & Hloads).
    rewrite Forall_forall in Hdocs. specialize (Hdocs f Hf). congruence.
  - rewrite (main_loaded _ _ _ _ Hdocs). unfold process_data.
    by rewrite Hflat.
Qed.

(** The directory with the empty object. *)
Lemma main_turnless_files_crash_witness :
  main iso_convert empty_object_directory = Uncaught (KeyError "timestamp").
Proof.
  apply main_turnless_files_crash.
  - apply Exists_cons_hd. reflexivity.
  - reflexivity.
Defined.

(** ** The file breakdown of the report *)


Lemma Zsum_ones {A : Type} (l : list A) :
  Zsum ((λ _, 1) <$> l) = Z.of_nat (length l).
Proof. induction l as [|x l IH]; [done|]. csimpl. lia. Qed.

Lemma Zsum_of_nat (l : list nat) : Zsum (Z.of_nat <$> l) = Z.of_nat (sum_list l).
Proof. induction l as [|x l IH]; [done|]. csimpl. lia. Qed.

Lemma file_figures_countable tbl label :
  Forall (λ r, countable_row r = true) tbl →
  ∃ sessions,
    file_figures tbl label
    = Ok {| file_sessions := sessions;
            file_interactions := length (rows_equal source_file label tbl);
            file_tokens := sum64 (token_values (rows_equal source_file label tbl)) |}.
Proof.
  intros Hall.
  assert (Hfile : Forall (λ r, countable_row r = true)
                    (rows_equal source_file label tbl)).
  { destruct label as [k|]; [|constructor]. simpl.
    apply Forall_forall. intros r [_ Hr]%list_elem_of_filter.
    rewrite Forall_forall in Hall. by apply Hall. }
  pose proof (overall_statistics_countable _ Hfile) as Hstats.
  unfold overall_statistics in Hstats. unfold file_figures.
  destruct (nunique _) as [sessions|]; [|done]. cbn [mbind result_bind] in *.
  destruct (traverse numeric _) as [cells|]; [|done].
  cbn [mbind result_bind] in *. injection Hstats as _ Htokens _.
  exists sessions. by rewrite Htokens.
Qed.

Lemma Forall_rows_equal (P : Row → Prop) field label (tbl : Table) :
  Forall P tbl → Forall P (rows_equal field label tbl).
Proof.
  intros Hall. destruct label as [k|]; [|constructor]. simpl.
  rewrite !Forall_forall in *. intros r [_ Hr]%list_elem_of_filter.
  by apply Hall.
Qed.

Lemma magnitude_rows_equal field' field label (tbl : Table) :
  0 ≤ magnitude field' (rows_equal field label tbl) ≤ magnitude field' tbl.
Proof.
  split; [apply Zsum_abs_nonneg_fmap|].
  destruct label as [k|]; simpl; [apply magnitude_filter_le|].
  apply Zsum_abs_nonneg_fmap.
Qed.

(** Sums taken in int64 add up, in int64, to the sum of the whole. *)
Lemma wrap64_Zsum {A : Type} (f : A → Z) (l : list A) :
  wrap64 (Zsum ((λ x, wrap64 (f x)) <$> l)) = wrap64 (Zsum (f <$> l)).
Proof.
  induction l as [|x l IH]; [done|].
  rewrite !fmap_cons, !Zsum_step, wrap64_add_l.
  by rewrite <- wrap64_add_r, IH, wrap64_add_r.
Qed.

(** X19. The file breakdown adds up to the overall statistics. On a table
    whose [total_tokens] column is int64, whose session ids can be counted
    and whose rows all name their source file (as every loaded row does),
    the interactions printed for the distinct source files sum to the
    total number of interactions: every row is counted under exactly one
    file. The tokens printed for the files add up, in int64, to the total
    of tokens; they add up exactly as long as the tokens of the table fit
    in 64 bits together. *)
Theorem file_breakdown_adds_up tbl :
  Forall (λ r, is_int64 (total_tokens r) = true) tbl →
  Forall (λ r, unhashable_id r = false) tbl →
  Forall (λ r : Row, is_Some (cell_text (source_file r))) tbl →
  ∃ labels figures st,
    unique (source_file <$> tbl) = Ok labels
    ∧ traverse (file_figures tbl) labels = Ok figures
    ∧ overall_statistics tbl = Ok st
    ∧ sum_list (file_interactions <$> figures) = total_interactions st
    ∧ wrap64 (Zsum (file_tokens <$> figures)) = total_tokens_used st
    ∧ (magnitude total_tokens tbl < 2 ^ 63 →
       Zsum (file_tokens <$> figures) = total_tokens_used st).
Proof.
  intros Hints Hids Hnamed.
  assert (Hcount : Forall (λ r, countable_row r = true) tbl).
  { rewrite Forall_forall in *. intros r Hr.
    apply int64_countable; [by apply Hints|by apply Hids]. }
  assert (Hsrc : ∀ r, r ∈ tbl → ∃ name, source_file r = JStr name).
  { intros r Hr. rewrite Forall_forall in Hnamed.
    destruct (Hnamed r Hr) as [k Hk]. destruct (source_file r); try done.
    by eexists. }
  set (labels := distinct ((λ r : Row, string_key (source_file r)) <$> tbl)).
  set (w := λ r : Row, cell_value (total_tokens r)).
  set (fig := λ label,
    {| file_sessions :=
         match file_figures tbl label with
         | Ok f => file_sessions f | Raise _ => 0%nat end;
       file_interactions := length (rows_equal source_file label tbl);
       file_tokens :=
         wrap64 (Zsum (w <$> rows_equal source_file label tbl)) |}).
  exists labels, (fig <$> labels). eexists.
  split; [by apply unique_of_strings|].
  split.
  { apply traverse_total. intros label _.
    destruct (file_figures_countable tbl label Hcount) as [sessions Hfig].
    unfold fig. rewrite Hfig. cbn [file_sessions]. do 2 f_equal.
    rewrite sum64_spec. f_equal. f_equal.
    apply token_values_int64, Forall_rows_equal, Hints. }
  split; [by apply overall_statistics_countable|].
  cbn [total_interactions total_tokens_used].
  rewrite (token_values_int64 _ Hints), sum64_spec.
  assert (Hcover : ∀ r, r ∈ tbl →
            ∃ k, hashable (source_file r) = Ok (Some k) ∧ Some k ∈ labels).
  { intros r Hr. destruct (Hsrc r Hr) as [name Hname].
    exists (inr name). rewrite Hname. split; [done|].
    apply elem_of_distinct, list_elem_of_fmap. exists r. by rewrite Hname. }
  pose proof (rows_equal_partition source_file w labels tbl
                (NoDup_distinct _) Hcover) as Hparts.
  split_and!.
  - apply Nat2Z.inj. rewrite <- Zsum_of_nat, <- Zsum_ones.
    rewrite <- (rows_equal_partition source_file (λ _, 1) labels tbl);
      [|apply NoDup_distinct|done].
    rewrite <- !list_fmap_compose. f_equal. apply list_fmap_ext.
    intros _ label _. simpl. by rewrite Zsum_ones.
  - rewrite <- list_fmap_compose.
    change (file_tokens ∘ fig)
      with (λ label, wrap64 (Zsum (w <$> rows_equal source_file label tbl))).
    by rewrite wrap64_Zsum, Hparts.
  - intros Hfit. rewrite <- list_fmap_compose.
    change (file_tokens ∘ fig)
      with (λ label, wrap64 (Zsum (w <$> rows_equal source_file label tbl))).
    assert (Hsmall : ∀ rows : Table,
              magnitude total_tokens rows ≤ magnitude total_tokens tbl →
              wrap64 (Zsum (w <$> rows)) = Zsum (w <$> rows)).
    { intros rows Hle. apply wrap64_small.
      pose proof (total_le_magnitude total_tokens rows) as Habs.
      change (λ r : Row, cell_value (total_tokens r)) with w in Habs. lia. }
    change (λ r : Row, cell_value (total_tokens r)) with w.
    rewrite (Hsmall tbl) by lia. rewrite <- Hparts.
    f_equal. apply list_fmap_ext. intros _ label _. cbv beta.
    apply Hsmall, magnitude_rows_equal.
Qed.

(** Two rows of [chat.json] and one of another file. *)
Lemma file_breakdown_adds_up_witness :
  ∃ labels figures st,
    unique (source_file <$> scenario_table ++ [with_source "b.json"
              (sample_row 9 "x" "s9" 3 4)]) = Ok labels
    ∧ traverse (file_figures (scenario_table ++ [with_source "b.json"
              (sample_row 9 "x" "s9" 3 4)])) labels = Ok figures
    ∧ overall_statistics (scenario_table ++ [with_source "b.json"
              (sample_row 9 "x" "s9" 3 4)]) = Ok st
    ∧ sum_list (file_interactions <$> figures) = total_interactions st
    ∧ wrap64 (Zsum (file_tokens <$> figures)) = total_tokens_used st
    ∧ (magnitude total_tokens (scenario_table ++ [with_source "b.json"
              (sample_row 9 "x" "s9" 3 4)]) < 2 ^ 63 →
       Zsum (file_tokens <$> figures) = total_tokens_used st).
Proof.
  apply file_breakdown_adds_up; forall_rows; by eexists.
Defined.

(** ** Chart 1: the interactions of every session by hour *)

Lemma traverse_raise_inv {X Y : Type} (f : X → result Y) xs e :
  traverse f xs = Raise e → ∃ x, x ∈ xs ∧ f x = Raise e.
Proof.
  induction xs as [|x xs IH]; simpl; [done|].
  destruct (f x) as [y|e'] eqn:Hx; simpl.
  - destruct (traverse f xs) as [ys|e'] eqn:Hxs; simpl; [done|].
    intros [= ->]. destruct IH as (x' & Hin & Hx'); [done|].
    exists x'. split; [by right|done].
  - intros [= ->]. exists x. split; [by left|done].
Qed.

Lemma hashable_raises j e : hashable j = Raise e → e = TypeError.
Proof. destruct j; simpl; congruence. Qed.

Lemma hashable_Ok j key : hashable j = Ok key → key = cell_key j.
Proof. destruct j; simpl; by intros [= <-]. Qed.

Lemma hashable_Raise (r : Row) e :
  hashable (session_id r) = Raise e → unhashable_id r = true.
Proof. unfold unhashable_id. by destruct (session_id r). Qed.

Lemma hashable_unhashable (r : Row) key :
  hashable (session_id r) = Ok key → unhashable_id r = false.
Proof. unfold unhashable_id. by destruct (session_id r). Qed.

(** X20. Chart 1 draws one line for every distinct session id among the
    rows of the table that carry the source file, null included, and no
    line twice; the line of a session has a point at an hour exactly when
    the session has rows of the file at that hour, the point is their
    number, and the points come by ascending hour; the line of the null
    session id has no point. The chart fails, with [TypeError], only when
    a row of the file has a list or an object as session id. *)
Theorem interaction_frequency_spec tbl src :
  match interaction_frequency tbl src with
  | Ok lines =>
      NoDup lines.*1
      ∧ Forall (λ r, unhashable_id r = false) (rows_of_file tbl src)
      ∧ (∀ session, session ∈ lines.*1
           ↔ ∃ r, r ∈ rows_of_file tbl src ∧ cell_key (session_id r) = session)
      ∧ (∀ session line, (session, line) ∈ lines →
           StronglySorted (by_key Z.le) line
           ∧ ∀ h n, (h, n) ∈ line
               ↔ match session with
                  | Some k => rows_at h (rows_of_session tbl src k)
                  | None => 0%nat
                  end = n ∧ (0 < n)%nat)
  | Raise e =>
      e = TypeError
      ∧ ∃ r, r ∈ rows_of_file tbl src ∧ unhashable_id r = true
  end.
Proof.
  unfold interaction_frequency, unique. rewrite traverse_fmap.
  rewrite file_rows_spec.
  destruct (traverse _ (rows_of_file tbl src)) as [keys|e] eqn:Hkeys;
    cbn [mbind result_bind].
  - apply traverse_Forall2 in Hkeys.
    rewrite <- list_fmap_compose.
    assert (Hfst : (fst ∘ (λ session : option pykey,
              (session, hourly_size
                 (rows_equal session_id session (rows_of_file tbl src)))))
            <$> distinct keys = distinct keys).
    { rewrite <- (list_fmap_id (distinct keys)) at 2. by apply list_fmap_ext. }
    rewrite Hfst. split_and!.
    + apply NoDup_distinct.
    + apply Forall_forall. intros r [i Hi]%list_elem_of_lookup.
      destruct (Forall2_lookup_l _ _ _ _ _ Hkeys Hi) as (key & _ & Hhash).
      by apply hashable_unhashable in Hhash.
    + intros session. rewrite elem_of_distinct. split.
      * intros Hin. apply list_elem_of_lookup in Hin as [i Hi].
        destruct (Forall2_lookup_r _ _ _ _ _ Hkeys Hi) as (r & Hr & Hhash).
        exists r. split; [by eapply list_elem_of_lookup_2|].
        symmetry. by apply hashable_Ok.
      * intros (r & Hr & Hkey). apply list_elem_of_lookup in Hr as [i Hi].
        destruct (Forall2_lookup_l _ _ _ _ _ Hkeys Hi) as (key & Hlook & Hhash).
        apply hashable_Ok in Hhash. rewrite Hkey in Hhash. subst key.
        by eapply list_elem_of_lookup_2.
    + intros session line (session' & [= <- ->] & _)%list_elem_of_fmap.
      split; [apply sorted_items_sorted|].
      intros h n. rewrite hourly_size_lookup.
      destruct session as [k|]; [|done]. cbn [rows_equal].
      rewrite <- file_rows_spec, rows_of_session_spec. done.
  - apply traverse_raise_inv in Hkeys as (r & Hr & Hhash).
    unfold compose in Hhash.
    pose proof (hashable_raises _ _ Hhash) as ->.
    split; [done|]. exists r. split; [done|]. by eapply hashable_Raise.
Qed.
